(** * score-smarts-ai: the streaming AI relay, its stream decoder and the
      trailing-structure extractor

    Shallow embedding of
      - [supabase/functions/ask-ai/index.ts]  (the relay: [serve] handler)
      - the AskAI page                        ([streamChat], [handleSend])

    JavaScript strings are sequences of UTF-16 code units; they are modelled
    as [list N].  JSON values are a first-order inductive type, [JSON.parse]
    is a recursive-descent parser following ECMA-404, and the parts of the
    platform the code does not own (network, database, clock, random and
    identifier sources) are explicit oracles of a world record.  The only
    parts of the language left abstract are binary64 arithmetic (what a
    JSON number literal is worth as a boolean and how it prints) and the
    messages of the engine's own errors: they are the fields of a section
    variable, and every theorem holds for any choice of them.  The one
    product the page computes, [Math.random() * 30], is the binary64
    product of [SpecFloat]. *)

From Stdlib Require Import Ascii String.
From Stdlib Require Import List NArith ZArith Bool Lia.
From Stdlib Require Import SpecFloat.
Import ListNotations.

Set Implicit Arguments.

(* ===================================================================== *)
(** * Text: JavaScript strings as code-unit sequences                     *)
(* ===================================================================== *)

Definition text := list N.

(** Literals, for ASCII text: [js "abc"] is the JavaScript string
    ["abc"]; [jsq] reads an apostrophe as a double quote, so that JSON
    texts stay legible. *)
Definition js (s : string) : text :=
  List.map N_of_ascii (list_ascii_of_string s).

Definition jsq (s : string) : text :=
  List.map (fun c => if N.eqb c 39 then 34%N else c) (js s).

Definition LF : N := 10.
Definition CR : N := 13.

Fixpoint text_eqb (a b : text) : bool :=
  match a, b with
  | [], [] => true
  | x :: a', y :: b' => N.eqb x y && text_eqb a' b'
  | _, _ => false
  end.

(** [s.startsWith(p)] *)
Fixpoint startsWith (p s : text) : bool :=
  match p, s with
  | [], _ => true
  | x :: p', y :: s' => N.eqb x y && startsWith p' s'
  | _ :: _, [] => false
  end.

(** [s.endsWith(c)] for a one-unit string [c] *)
Definition endsWith1 (c : N) (s : text) : bool :=
  match rev s with
  | x :: _ => N.eqb x c
  | [] => false
  end.

(** [s.indexOf(c)] for a one-unit string [c]; [None] stands for [-1]. *)
Fixpoint indexOf1 (c : N) (s : text) : option nat :=
  match s with
  | [] => None
  | x :: s' => if N.eqb x c then Some 0%nat
               else option_map S (indexOf1 c s')
  end.

(** [s.slice(0, n)] and [s.slice(n)] for [0 <= n]; [s.slice(0, -1)]. *)
Definition slice_to (n : nat) (s : text) : text := firstn n s.
Definition slice_from (n : nat) (s : text) : text := skipn n s.
Definition slice_drop_last (s : text) : text := removelast s.

(** ECMAScript WhiteSpace and LineTerminator code points: what
    [String.prototype.trim] strips and what the regular-expression class
    [\s] matches. *)
Definition is_ws (c : N) : bool :=
  ((9 <=? c) && (c <=? 13) || (c =? 32) || (c =? 160) || (c =? 5760)
   || (8192 <=? c) && (c <=? 8202) || (c =? 8232) || (c =? 8233)
   || (c =? 8239) || (c =? 8287) || (c =? 12288) || (c =? 65279))%N.

Fixpoint drop_ws (s : text) : text :=
  match s with
  | c :: s' => if is_ws c then drop_ws s' else s
  | [] => []
  end.

Definition trim (s : text) : text := rev (drop_ws (rev (drop_ws s))).

(** [parts.join(sep)] on an array of strings *)
Fixpoint join (sep : text) (parts : list text) : text :=
  match parts with
  | [] => []
  | [p] => p
  | p :: ps => p ++ sep ++ join sep ps
  end.

(** Decimal rendering of a natural number ([`${xs.length}`]). *)
Fixpoint decimal_digits (fuel n : nat) (acc : text) : text :=
  match fuel with
  | O => acc
  | S fuel' =>
      let acc' := (48 + N.of_nat (n mod 10))%N :: acc in
      if (n <? 10)%nat then acc' else decimal_digits fuel' (n / 10) acc'
  end.

Definition nat_to_text (n : nat) : text := decimal_digits (S n) n [].

(* ===================================================================== *)
(** * JSON values                                                         *)
(* ===================================================================== *)

(** A number keeps its literal; objects keep their members in source
    order, duplicates included (the last one wins on lookup, as in
    [JSON.parse]). *)
#[warnings="-register-all"]
Inductive json : Type :=
| JNull
| JBool (b : bool)
| JNum (literal : text)
| JStr (s : text)
| JArr (items : list json)
| JObj (members : list (text * json)).

(** A JavaScript value read out of parsed JSON: [None] is [undefined]. *)
Definition jsval := option json.

Fixpoint own_property (k : text) (members : list (text * json)) : jsval :=
  match members with
  | [] => None
  | (k', v) :: rest =>
      match own_property k rest with
      | Some w => Some w
      | None => if text_eqb k k' then Some v else None
      end
  end.

(** [v.k] for a property name [k] that no built-in prototype defines
    (all names the program reads are of that kind); [v] is neither [null]
    nor [undefined]. *)
Definition get (k : text) (v : json) : jsval :=
  match v with
  | JObj members => own_property k members
  | _ => None
  end.

(** [v[0]] *)
Definition get0 (v : json) : jsval :=
  match v with
  | JObj members => own_property (js "0") members
  | JArr (x :: _) => Some x
  | JStr (c :: _) => Some (JStr [c])
  | _ => None
  end.

(** [a?.k]: short-circuits on [undefined] and [null]. *)
Definition optional (a : jsval) (f : json -> jsval) : jsval :=
  match a with
  | None | Some JNull => None
  | Some v => f v
  end.

Definition is_array (a : jsval) : bool :=
  match a with Some (JArr _) => true | _ => false end.

(* ===================================================================== *)
(** * JSON.parse                                                          *)
(* ===================================================================== *)

Module Parser.

Inductive outcome (A : Type) : Type :=
| Parsed (v : A) (rest : text)
| Malformed
| Exhausted.
Arguments Parsed {A} v rest.
Arguments Malformed {A}.
Arguments Exhausted {A}.

Definition json_ws (c : N) : bool :=
  ((c =? 32) || (c =? 9) || (c =? 10) || (c =? 13))%N.

Fixpoint skip_ws (s : text) : text :=
  match s with
  | c :: s' => if json_ws c then skip_ws s' else s
  | [] => []
  end.

Definition is_digit (c : N) : bool := ((48 <=? c) && (c <=? 57))%N.

Definition hex_value (c : N) : option N :=
  if is_digit c then Some (c - 48)%N
  else if ((65 <=? c) && (c <=? 70))%N then Some (c - 55)%N
  else if ((97 <=? c) && (c <=? 102))%N then Some (c - 87)%N
  else None.

Definition hex4 (a b c d : N) : option N :=
  match hex_value a, hex_value b, hex_value c, hex_value d with
  | Some x, Some y, Some z, Some w => Some (((x * 16 + y) * 16 + z) * 16 + w)%N
  | _, _, _, _ => None
  end.

Definition simple_escape (c : N) : option N :=
  if (c =? 34)%N then Some 34%N          (* quote *)
  else if (c =? 92)%N then Some 92%N     (* backslash *)
  else if (c =? 47)%N then Some 47%N     (* solidus *)
  else if (c =? 98)%N then Some 8%N      (* b: backspace *)
  else if (c =? 102)%N then Some 12%N    (* f: form feed *)
  else if (c =? 110)%N then Some 10%N    (* n: line feed *)
  else if (c =? 114)%N then Some 13%N    (* r: carriage return *)
  else if (c =? 116)%N then Some 9%N     (* t: tab *)
  else None.

(** The characters of a string after its opening quote. *)
Fixpoint string_body (s : text) : outcome text :=
  match s with
  | [] => Malformed
  | c :: s1 =>
      if (c =? 34)%N then Parsed [] s1
      else if (c <? 32)%N then Malformed
      else if (c =? 92)%N then
        match s1 with
        | [] => Malformed
        | e :: s2 =>
            if (e =? 117)%N then
              match s2 with
              | a :: b :: c' :: d :: s3 =>
                  match hex4 a b c' d with
                  | Some u =>
                      match string_body s3 with
                      | Parsed t r => Parsed (u :: t) r
                      | o => o
                      end
                  | None => Malformed
                  end
              | _ => Malformed
              end
            else
              match simple_escape e with
              | Some u =>
                  match string_body s2 with
                  | Parsed t r => Parsed (u :: t) r
                  | o => o
                  end
              | None => Malformed
              end
        end
      else
        match string_body s1 with
        | Parsed t r => Parsed (c :: t) r
        | o => o
        end
  end.

Fixpoint digits (s : text) : text * text :=
  match s with
  | c :: s' => if is_digit c then let (d, r) := digits s' in (c :: d, r)
               else ([], s)
  | [] => ([], [])
  end.

(** The parts of a number, each with the text that follows it: an
    optional minus sign; a single 0, or a non-zero digit and any digits;
    optionally a point and one digit or more; optionally e or E, an
    optional sign and one digit or more. *)
Definition minus_part (s : text) : text * text :=
  match s with
  | c :: r => if (c =? 45)%N then ([c], r) else ([], s)
  | [] => ([], s)
  end.

Definition int_part (s : text) : option (text * text) :=
  match s with
  | c :: r =>
      if (c =? 48)%N then Some ([c], r)
      else if is_digit c then let (d, r') := digits r in Some (c :: d, r')
      else None
  | [] => None
  end.

Definition frac_part (s : text) : option (text * text) :=
  match s with
  | c :: r =>
      if (c =? 46)%N then
        match digits r with
        | ([], _) => None
        | (d, r') => Some (c :: d, r')
        end
      else Some ([], s)
  | [] => Some ([], s)
  end.

Definition exp_part (s : text) : option (text * text) :=
  match s with
  | c :: r =>
      if ((c =? 101) || (c =? 69))%N then
        let (sg, r0) :=
          match r with
          | g :: r1 => if ((g =? 43) || (g =? 45))%N
                       then ([g], r1) else ([], r)
          | [] => ([], r)
          end in
        match digits r0 with
        | ([], _) => None
        | (d, r') => Some (c :: sg ++ d, r')
        end
      else Some ([], s)
  | [] => Some ([], s)
  end.

Definition number (s : text) : outcome text :=
  let (sign, s0) := minus_part s in
  match int_part s0 with
  | None => Malformed
  | Some (i, s1) =>
      match frac_part s1 with
      | None => Malformed
      | Some (f, s2) =>
          match exp_part s2 with
          | None => Malformed
          | Some (e, s3) => Parsed (sign ++ i ++ f ++ e) s3
          end
      end
  end.

Definition keyword (w : text) (v : json) (s : text) : outcome json :=
  if startsWith w s then Parsed v (skipn (length w) s) else Malformed.

(** [value] reads one value at the head of [s] (no leading white space);
    [elements] reads the rest of an array after its first [[] or a [,];
    [members] the rest of an object after its [{] or a [,]. *)
Fixpoint value (fuel : nat) (s : text) : outcome json :=
  match fuel with
  | O => Exhausted
  | S fuel' =>
      match s with
      | [] => Malformed
      | c :: r =>
          if (c =? 123)%N then
            match skip_ws r with
            | c' :: r' =>
                if (c' =? 125)%N then Parsed (JObj []) r'
                else match members fuel' (c' :: r') with
                     | Parsed ms r'' => Parsed (JObj ms) r''
                     | Malformed => Malformed
                     | Exhausted => Exhausted
                     end
            | [] => Malformed
            end
          else if (c =? 91)%N then
            match skip_ws r with
            | c' :: r' =>
                if (c' =? 93)%N then Parsed (JArr []) r'
                else match elements fuel' (c' :: r') with
                     | Parsed xs r'' => Parsed (JArr xs) r''
                     | Malformed => Malformed
                     | Exhausted => Exhausted
                     end
            | [] => Malformed
            end
          else if (c =? 34)%N then
            match string_body r with
            | Parsed t r' => Parsed (JStr t) r'
            | Malformed => Malformed
            | Exhausted => Exhausted
            end
          else if (c =? 116)%N then keyword (js "true") (JBool true) s
          else if (c =? 102)%N then keyword (js "false") (JBool false) s
          else if (c =? 110)%N then keyword (js "null") JNull s
          else
            match number s with
            | Parsed t r' => Parsed (JNum t) r'
            | Malformed => Malformed
            | Exhausted => Exhausted
            end
      end
  end
with elements (fuel : nat) (s : text) : outcome (list json) :=
  match fuel with
  | O => Exhausted
  | S fuel' =>
      match value fuel' s with
      | Parsed v r =>
          match skip_ws r with
          | c :: r' =>
              if (c =? 44)%N then
                match elements fuel' (skip_ws r') with
                | Parsed vs r'' => Parsed (v :: vs) r''
                | o => o
                end
              else if (c =? 93)%N then Parsed [v] r'
              else Malformed
          | [] => Malformed
          end
      | Malformed => Malformed
      | Exhausted => Exhausted
      end
  end
with members (fuel : nat) (s : text) : outcome (list (text * json)) :=
  match fuel with
  | O => Exhausted
  | S fuel' =>
      match s with
      | c :: r =>
          if (c =? 34)%N then
            match string_body r with
            | Parsed k r1 =>
                match skip_ws r1 with
                | c1 :: r2 =>
                    if (c1 =? 58)%N then
                      match value fuel' (skip_ws r2) with
                      | Parsed v r3 =>
                          match skip_ws r3 with
                          | c3 :: r4 =>
                              if (c3 =? 44)%N then
                                match members fuel' (skip_ws r4) with
                                | Parsed ms r5 => Parsed ((k, v) :: ms) r5
                                | o => o
                                end
                              else if (c3 =? 125)%N then Parsed [(k, v)] r4
                              else Malformed
                          | [] => Malformed
                          end
                      | Malformed => Malformed
                      | Exhausted => Exhausted
                      end
                    else Malformed
                | [] => Malformed
                end
            | _ => Malformed
            end
          else Malformed
      | [] => Malformed
      end
  end.

(** Two calls are spent per character read, at most. *)
Definition enough (s : text) : nat := 2 * length s + 2.

(** A run that is not short of fuel, and consumes input when it
    succeeds. *)
Definition terminates {A : Type} (o : outcome A) (s : text) : Prop :=
  o <> Exhausted /\ forall v r, o = Parsed v r -> length r < length s.

End Parser.

(** [JSON.parse(s)]: [None] when it throws [SyntaxError]. *)
Definition JSON_parse (s : text) : option json :=
  let s0 := Parser.skip_ws s in
  match Parser.value (Parser.enough s0) s0 with
  | Parser.Parsed v rest =>
      match Parser.skip_ws rest with
      | [] => Some v
      | _ :: _ => None
      end
  | _ => None
  end.

(* ===================================================================== *)
(** * The client: messages, effects and the browser's oracles             *)
(* ===================================================================== *)

(** What a [throw] carries: an [Error] instance with its message, or any
    other value. *)
Inductive exn : Type :=
| ErrorObject (message : text)
| OtherValue.

Inductive completion (A : Type) : Type :=
| Returns (a : A)
| Throws (e : exn).
Arguments Returns {A} a.
Arguments Throws {A} e.

(** What the program takes from the JavaScript engine and does not
    own: binary64 (what a JSON number literal is worth as a boolean, and
    how it prints), and the message of an error the engine raises, given
    the name of the error and the text or name it fails on. *)
Record engine : Type := {
  Number_ToBoolean : text -> bool;
  Number_ToString : text -> text;
  error_message : text -> text -> text
}.

Inductive role : Type := user_role | assistant_role.

Record Message : Type := {
  msg_id : text;
  msg_role : role;
  msg_content : text;
  msg_timestamp : Z
}.

(** The body of a [fetch] response, as its reader delivers it: the text
    each [decoder.decode(value, { stream: true })] produces, in order, and
    how the stream ends ([done], or a rejected [read]). *)
Record body_stream : Type := {
  chunks : list text;
  read_failure : option exn
}.

Record fetch_response : Type := {
  resp_status : Z;
  resp_body : option body_stream
}.

Definition resp_ok (r : fetch_response) : bool :=
  ((200 <=? resp_status r) && (resp_status r <=? 299))%Z.

Inductive fetch_result : Type :=
| FetchRejected (e : exn)
| FetchResolved (r : fetch_response).

(** Everything the page does to the outside world, in order.  An insert
    resolves whatever its outcome (the client library reports a failure
    in the value it resolves to, which the page does not read). *)
Inductive effect : Type :=
| Fetch (question : text) (userId : option text)
| InsertTopic (user_id subject : text) (topic : json) (probability : Z)
| InsertAnswer (user_id question answer : text) (summary : json) (subject : text)
| Toast (title description : text)
| ConsoleLog (msg : text)
| ConsoleError (e : exn).

Definition is_insert (e : effect) : bool :=
  match e with
  | InsertTopic _ _ _ _ | InsertAnswer _ _ _ _ _ => true
  | _ => false
  end.

(** The sources the page draws from; the [n]-th draw is [n]. *)
Record browser : Type := {
  randomUUID : nat -> text;
  Date_now : nat -> Z;
  Math_random : nat -> spec_float;
  fetch : text -> option text -> fetch_result
}.

(** The component's state ([useState]) with the log of its effects. *)
Record page : Type := {
  messages : list Message;
  input : text;
  isLoading : bool;
  draws : nat;
  effects : list effect
}.

Definition setMessages (f : list Message -> list Message) (p : page) : page :=
  {| messages := f (messages p); input := input p; isLoading := isLoading p;
     draws := draws p; effects := effects p |}.

Definition setInput (v : text) (p : page) : page :=
  {| messages := messages p; input := v; isLoading := isLoading p;
     draws := draws p; effects := effects p |}.

Definition setIsLoading (b : bool) (p : page) : page :=
  {| messages := messages p; input := input p; isLoading := b;
     draws := draws p; effects := effects p |}.

Definition draw (p : page) : page :=
  {| messages := messages p; input := input p; isLoading := isLoading p;
     draws := S (draws p); effects := effects p |}.

Definition perform (e : effect) (p : page) : page :=
  {| messages := messages p; input := input p; isLoading := isLoading p;
     draws := draws p; effects := effects p ++ [e] |}.

Definition welcome : Message :=
  {| msg_id := js "welcome"; msg_role := assistant_role;
     msg_content := js "Hello! I'm your AI study assistant. I can help you understand topics, generate exam-ready answers, predict important questions, and create quick revision notes. What would you like to learn today?";
     msg_timestamp := 0 |}.

Definition is_assistant (r : role) : bool :=
  match r with assistant_role => true | user_role => false end.

(** [prev.map((m, i) => i === prev.length - 1 ? { ...m, content } : m)] *)
Fixpoint replace_last_content (content : text) (prev : list Message) : list Message :=
  match prev with
  | [] => []
  | [m] => [{| msg_id := msg_id m; msg_role := msg_role m;
               msg_content := content; msg_timestamp := msg_timestamp m |}]
  | m :: rest => m :: replace_last_content content rest
  end.

Definition new_message (b : browser) (n : nat) (r : role) (content : text) : Message :=
  {| msg_id := randomUUID b n; msg_role := r; msg_content := content;
     msg_timestamp := Date_now b n |}.

(** The updater given to [setMessages] on every delta. *)
Definition show_streaming (b : browser) (fullResponse : text) (p : page) : page :=
  let streaming :=
    match rev (messages p) with
    | last :: _ => is_assistant (msg_role last)
                   && negb (text_eqb (msg_id last) (js "welcome"))
    | [] => false
    end in
  if streaming
  then setMessages (replace_last_content fullResponse) p
  else draw (setMessages (fun prev => prev ++
               [new_message b (draws p) assistant_role fullResponse]) p).

(* ===================================================================== *)
(** * streamChat                                                          *)
(* ===================================================================== *)

Section Platform.

Variable vm : engine.

Definition SyntaxError (input : text) : exn :=
  ErrorObject (error_message vm (js "SyntaxError") input).

Definition TypeError (name : text) : exn :=
  ErrorObject (error_message vm (js "TypeError") name).

(** [if (a)], [a || b], [a && b] *)
Definition truthy (a : jsval) : bool :=
  match a with
  | None | Some JNull => false
  | Some (JBool b) => b
  | Some (JNum n) => Number_ToBoolean vm n
  | Some (JStr s) => negb (text_eqb s [])
  | Some (JArr _) | Some (JObj _) => true
  end.

(** The string a value becomes when added to a string; [None] is the
    [TypeError] of an object whose own [toString] member hides the
    inherited method. *)
Fixpoint ToString (v : json) : option text :=
  match v with
  | JNull => Some (js "null")
  | JBool true => Some (js "true")
  | JBool false => Some (js "false")
  | JNum n => Some (Number_ToString vm n)
  | JStr s => Some s
  | JArr items =>
      let fix parts (xs : list json) : option (list text) :=
        match xs with
        | [] => Some []
        | x :: xs' =>
            match (match x with JNull => Some [] | _ => ToString x end),
                  parts xs' with
            | Some a, Some l => Some (a :: l)
            | _, _ => None
            end
        end in
      option_map (join (js ",")) (parts items)
  | JObj ms =>
      match own_property (js "toString") ms with
      | Some _ => None
      | None => Some (js "[object Object]")
      end
  end.

(** [parsed.choices?.[0]?.delta?.content] for a parsed payload. *)
Definition delta_content (parsed : json) : completion jsval :=
  match parsed with
  | JNull => Throws (TypeError (js "choices"))
  | _ => Returns (optional (optional (optional (get (js "choices") parsed)
                                        get0)
                              (get (js "delta")))
                    (get (js "content")))
  end.

(** The [try] block of the decoder up to the update of the screen: the
    text to append, if any. *)
Definition try_delta (jsonStr : text) : completion (option text) :=
  match JSON_parse jsonStr with
  | None => Throws (SyntaxError jsonStr)
  | Some parsed =>
      match delta_content parsed with
      | Throws e => Throws e
      | Returns content =>
          if truthy content then
            match content with
            | Some v =>
                match ToString v with
                | Some s => Returns (Some s)
                | None => Throws (TypeError (js "content"))
                end
            | None => Returns None
            end
          else Returns None
      end
  end.

(** The variables of [streamChat] while it reads. *)
Record decoding : Type := {
  textBuffer : text;
  fullResponse : text;
  screen : page
}.

Variable b : browser.

(** The inner [while]: one iteration per complete line of the buffer.
    Every iteration shortens the buffer, so [S (length textBuffer)]
    iterations are never used up ([lines_loop_fuel]). *)
Fixpoint lines_loop (fuel : nat) (d : decoding) : decoding :=
  match fuel with
  | O => d
  | S fuel' =>
      match indexOf1 LF (textBuffer d) with
      | None => d
      | Some newlineIndex =>
          let line := slice_to newlineIndex (textBuffer d) in
          let rest := slice_from (newlineIndex + 1) (textBuffer d) in
          let line := if endsWith1 CR line then slice_drop_last line else line in
          let continue :=
            {| textBuffer := rest; fullResponse := fullResponse d;
               screen := screen d |} in
          if startsWith (js ":") line || text_eqb (trim line) [] then
            lines_loop fuel' continue
          else if negb (startsWith (js "data: ") line) then
            lines_loop fuel' continue
          else
            let jsonStr := trim (slice_from 6 line) in
            if text_eqb jsonStr (js "[DONE]") then continue (* break *)
            else
              match try_delta jsonStr with
              | Returns (Some content) =>
                  let full := fullResponse d ++ content in
                  lines_loop fuel'
                    {| textBuffer := rest; fullResponse := full;
                       screen := show_streaming b full (screen d) |}
              | Returns None => lines_loop fuel' continue
              | Throws _ =>
                  {| textBuffer := line ++ [LF] ++ rest;
                     fullResponse := fullResponse d;
                     screen := screen d |} (* break *)
              end
      end
  end.

(** One turn of the outer [while]: a chunk arrives. *)
Definition on_chunk (d : decoding) (value : text) : decoding :=
  let buffer := textBuffer d ++ value in
  lines_loop (S (length buffer))
    {| textBuffer := buffer; fullResponse := fullResponse d;
       screen := screen d |}.

Definition read_loop (values : list text) (d : decoding) : decoding :=
  fold_left on_chunk values d.

Definition start_decoding (p : page) : decoding :=
  {| textBuffer := []; fullResponse := []; screen := p |}.

(** The decoder proper, from [resp.body.getReader()] to [return]. *)
Definition decode_stream (s : body_stream) (p : page) : page * completion text :=
  let d := read_loop (chunks s) (start_decoding p) in
  match read_failure s with
  | Some e => (screen d, Throws e)
  | None => (screen d, Returns (fullResponse d))
  end.

Definition streamChat (userId : option text) (question : text) (p : page)
  : page * completion text :=
  let p := perform (Fetch question userId) p in
  match fetch b question userId with
  | FetchRejected e => (p, Throws e)
  | FetchResolved resp =>
      if (resp_status resp =? 429)%Z then
        (p, Throws (ErrorObject
               (js "Rate limit exceeded. Please try again in a moment.")))
      else if (resp_status resp =? 402)%Z then
        (p, Throws (ErrorObject
               (js "AI credits exhausted. Please contact support.")))
      else
        match resp_ok resp, resp_body resp with
        | true, Some s => decode_stream s p
        | _, _ => (p, Throws (ErrorObject (js "Failed to get AI response")))
        end
  end.

(* =================================================================== *)
(** ** The trailing-structure extractor and handleSend                  *)
(* =================================================================== *)

Definition fence_open : text := [96; 96; 96; 106; 115; 111; 110]%N.
Definition fence_close : text := [96; 96; 96]%N.

(** [response.match(/```json\s*([\s\S]*?)\s*```/)], as a backtracking
    matcher runs it.  [ws_then_close] is the tail of the pattern, white
    space (the longest run first) and the closing fence, at the head of
    [s]. *)
Fixpoint ws_then_close (s : text) : bool :=
  match s with
  | c :: s' =>
      if is_ws c then ws_then_close s' || startsWith fence_close s
      else startsWith fence_close s
  | [] => false
  end.

(** The lazy group: the shortest prefix after which the tail matches. *)
Fixpoint lazy_group (s : text) : option text :=
  if ws_then_close s then Some []
  else match s with
       | c :: s' => option_map (cons c) (lazy_group s')
       | [] => None
       end.

(** The pattern after the opening fence: white space (the longest run
    first), the group, the tail. *)
Fixpoint after_open (s : text) : option text :=
  match s with
  | c :: s' =>
      if is_ws c then
        match after_open s' with
        | Some g => Some g
        | None => lazy_group s
        end
      else lazy_group s
  | [] => lazy_group []
  end.

(** The leftmost match; the result is [jsonMatch[1]], [None] is [null]. *)
Fixpoint fence_match (s : text) : option text :=
  match (if startsWith fence_open s
         then after_open (skipn (length fence_open) s) else None) with
  | Some g => Some g
  | None => match s with
            | _ :: s' => fence_match s'
            | [] => None
            end
  end.

(** Numbers are binary64 values: the operations of [SpecFloat] with 53
    bits of precision and the exponent 1024 for the infinities. *)
Definition prec : Z := 53.
Definition emax : Z := 1024.

(** The number 30: [30 * 2 ^ 48 * 2 ^ -48], with a significand of 53
    bits. *)
Definition thirty : spec_float := S754_finite false 8444249301319680 (-48).

(** [Math.floor(x)] of a finite [x], as an integer (the product below is
    finite, [random_product]). *)
Definition Math_floor (x : spec_float) : Z :=
  match x with
  | S754_finite s m e => Z.shiftl (if s then Zneg m else Zpos m) e
  | _ => 0
  end.

(** [Math.floor(Math.random() * 30) + 70]: the product is the binary64
    product, rounded to the nearest value; the sum of an integer below
    30 and 70 is exact. *)
Definition probability (r : spec_float) : Z :=
  (Math_floor (SFmul prec emax r thirty) + 70)%Z.

Definition General : text := js "General".

(** The [for ... of] over the topics: one insert, one random draw each. *)
Definition save_topics (user_id : text) (topics : list json) (p : page) : page :=
  fold_left
    (fun p topic =>
       draw (perform (InsertTopic user_id General topic
                        (probability (Math_random b (draws p)))) p))
    topics p.

(** The inner [try]/[catch] of [handleSend], once a fenced block has
    matched: the summary and the page after the topic inserts. *)
Definition extract (user_id : text) (block : text) (p : page) : json * page :=
  let failed :=
    (JStr [], perform (ConsoleLog (js "Could not parse JSON from response")) p) in
  match JSON_parse block with
  | None => failed
  | Some JNull => failed
  | Some parsed =>
      let summary :=
        match get (js "summary") parsed with
        | Some v => if truthy (Some v) then v else JStr []
        | None => JStr []
        end in
      let important_topics := get (js "important_topics") parsed in
      if truthy important_topics && is_array important_topics then
        match important_topics with
        | Some (JArr topics) => (summary, save_topics user_id topics p)
        | _ => (summary, p)
        end
      else (summary, p)
  end.

(** The body of [if (user && response)]. *)
Definition persist (user_id messageText response : text) (p : page) : page :=
  let (summary, p) :=
    match fence_match response with
    | Some block => extract user_id block p
    | None => (JStr [], p)
    end in
  perform (InsertAnswer user_id messageText response summary General) p.

Definition apology : text :=
  js "I'm sorry, I encountered an error. Please try again.".

(** [text || input.trim()] *)
Definition messageText (text_arg : option text) (p : page) : text :=
  match text_arg with
  | Some t => if text_eqb t [] then trim (input p) else t
  | None => trim (input p)
  end.

(** [handleSend(text)]; [user] is the signed-in user's id, if any. *)
Definition handleSend (user : option text) (text_arg : option text) (p : page) : page :=
  let messageText := messageText text_arg p in
  if text_eqb messageText [] then p
  else
    let userMessage := new_message b (draws p) user_role messageText in
    let p := draw p in
    let p := setMessages (fun prev => prev ++ [userMessage]) p in
    let p := setInput [] p in
    let p := setIsLoading true p in
    let (p, outcome) := streamChat user messageText p in
    let p :=
      match outcome with
      | Returns response =>
          match user with
          | Some user_id =>
              if text_eqb response [] then p
              else persist user_id messageText response p
          | None => p
          end
      | Throws error =>
          let p := perform (ConsoleError error) p in
          let p := perform (Toast (js "Error")
                              (match error with
                               | ErrorObject message => message
                               | OtherValue => js "Failed to get AI response"
                               end)) p in
          draw (setMessages (fun prev => prev ++
                  [new_message b (draws p) assistant_role apology]) p)
      end in
    setIsLoading false p.

(* =================================================================== *)
(** ** The relay: the [serve] handler of ask-ai                          *)
(* =================================================================== *)

Record Request : Type := {
  req_method : text;
  req_body : text
}.

Inductive payload : Type :=
| NoBody
| JsonBody (v : json)                     (* [JSON.stringify(v)] *)
| UpstreamBody (s : option body_stream).  (* [response.body], as it is *)

Record Response : Type := {
  status : Z;
  headers : list (text * text);
  body : payload
}.

Definition corsHeaders : list (text * text) :=
  [ (js "Access-Control-Allow-Origin", js "*");
    (js "Access-Control-Allow-Headers",
     js "authorization, x-client-info, apikey, content-type") ].

(** [{ ...corsHeaders, "Content-Type": t }] *)
Definition with_content_type (t : text) : list (text * text) :=
  corsHeaders ++ [(js "Content-Type", t)].

Fixpoint header (name : text) (hs : list (text * text)) : option text :=
  match hs with
  | [] => None
  | (k, v) :: rest => if text_eqb k name then Some v else header name rest
  end.

Definition error_response (code : Z) (message : text) : Response :=
  {| status := code;
     headers := with_content_type (js "application/json");
     body := JsonBody (JObj [(js "error", JStr message)]) |}.

Record syllabus_row : Type := { title : text; file_url : text }.
Record paper_row : Type := { year : text; subject : text }.

Record chat_request : Type := {
  authorization : text;
  model : text;
  system_content : text;
  user_content : jsval;
  stream : bool
}.

(** The relay's surroundings: its environment and the services it
    calls.  [createClient] returns ([None]) or throws; a query resolves
    to its rows, or to [None] for the [null] data of a failed query. *)
Record deployment : Type := {
  LOVABLE_API_KEY : option text;
  SUPABASE_URL : option text;
  SUPABASE_SERVICE_ROLE_KEY : option text;
  createClient : option text -> option text -> option exn;
  select_syllabus : json -> option (list syllabus_row);
  select_past_papers : json -> option (list paper_row);
  gateway : chat_request -> fetch_result
}.

Inductive relay_effect : Type :=
| SelectSyllabus (userId : json)
| SelectPastPapers (userId : json)
| GatewayCall (r : chat_request)
| LogGatewayError (status : Z) (errorText : text)
| LogFailure (e : exn).

Definition is_gateway_call (e : relay_effect) : bool :=
  match e with GatewayCall _ => true | _ => false end.

(** The handler's steps: each returns or throws, and adds to the log. *)
Definition step (A : Type) : Type := completion A * list relay_effect.

Definition ret {A : Type} (a : A) : step A := (Returns a, []).
Definition throw {A : Type} (e : exn) : step A := (Throws e, []).
Definition emit (e : relay_effect) : step unit := (Returns tt, [e]).

Definition bind {A B : Type} (m : step A) (k : A -> step B) : step B :=
  match m with
  | (Returns a, l) => let (r, l') := k a in (r, l ++ l')
  | (Throws e, l) => (Throws e, l)
  end.

Notation "x <- m ;; k" := (bind m (fun x => k))
  (at level 61, m at next level, right associativity).
Notation "m ;;; k" := (bind m (fun _ => k))
  (at level 61, right associativity).

(** [[...new Set(xs)]]: the distinct values, in order of first
    occurrence. *)
Definition distinct (xs : list text) : list text :=
  fold_left (fun seen x => if existsb (text_eqb x) seen then seen
                           else seen ++ [x]) xs [].

Definition or_else (a d : text) : text :=
  if text_eqb a [] then d else a.

Definition systemPrompt (syllabusContext papersContext : text) : text :=
  join [LF]
    [ js "You are EngiGenius AI, an expert study assistant for engineering students. Your role is to:";
      js "1. Analyze questions and provide 10/10 exam-ready, easy-to-memorize answers";
      js "2. Identify important topics and predict likely exam questions";
      js "3. Provide clear explanations with examples";
      js "4. Generate summaries and quick revision notes";
      [];
      js "Context about user's materials:";
      or_else syllabusContext (js "No syllabus uploaded yet");
      or_else papersContext (js "No past papers uploaded yet");
      [];
      js "IMPORTANT: ";
      js "- Format your answers clearly with headings, bullet points, and numbered lists";
      js "- Include key formulas where relevant";
      js "- Provide exam tips and memory techniques";
      js "- Keep answers comprehensive but easy to understand";
      js "- Always return structured, well-formatted responses";
      [];
      js "At the end of your response, provide a JSON block with important topics extracted:";
      fence_open;
      js "{";
      jsq "  'important_topics': ['topic1', 'topic2', 'topic3'],";
      jsq "  'summary': 'Brief 2-3 sentence summary'";
      js "}";
      fence_close ].

(** [await response.text()] *)
Definition response_text (r : fetch_response) : step text :=
  match resp_body r with
  | Some s =>
      match read_failure s with
      | Some e => throw e
      | None => ret (concat (chunks s))
      end
  | None => ret []
  end.

Variable w : deployment.

(** The two context strings ([if (userId) { ... }]). *)
Definition contexts (userId : jsval) : step (text * text) :=
  match userId with
  | Some uid =>
      if truthy userId then
        emit (SelectSyllabus uid) ;;;
        let syllabusContext :=
          match select_syllabus w uid with
          | Some (r :: rs) =>
              js "User has uploaded " ++ nat_to_text (length (r :: rs))
              ++ js " syllabus file(s): "
              ++ join (js ", ") (List.map title (r :: rs))
          | _ => []
          end in
        emit (SelectPastPapers uid) ;;;
        let papersContext :=
          match select_past_papers w uid with
          | Some (r :: rs) =>
              js "User has uploaded " ++ nat_to_text (length (r :: rs))
              ++ js " past paper(s) from years: "
              ++ join (js ", ") (distinct (List.map year (r :: rs)))
          | _ => []
          end in
        ret (syllabusContext, papersContext)
      else ret ([], [])
  | None => ret ([], [])
  end.

(** The [try] block of the handler. *)
Definition answer (req : Request) : step Response :=
  match JSON_parse (req_body req) with
  | None => throw (SyntaxError (req_body req))
  | Some JNull => throw (TypeError (js "question"))
  | Some parsed =>
      let question := get (js "question") parsed in
      let userId := get (js "userId") parsed in
      if negb (truthy question) then
        ret (error_response 400 (js "Question is required"))
      else
        match LOVABLE_API_KEY w with
        | None => throw (ErrorObject (js "LOVABLE_API_KEY is not configured"))
        | Some key =>
            if text_eqb key [] then
              throw (ErrorObject (js "LOVABLE_API_KEY is not configured"))
            else
              match createClient w (SUPABASE_URL w) (SUPABASE_SERVICE_ROLE_KEY w) with
              | Some e => throw e
              | None =>
                  ctx <- contexts userId ;;
                  let call :=
                    {| authorization := js "Bearer " ++ key;
                       model := js "google/gemini-2.5-flash";
                       system_content := systemPrompt (fst ctx) (snd ctx);
                       user_content := question;
                       stream := true |} in
                  emit (GatewayCall call) ;;;
                  match gateway w call with
                  | FetchRejected e => throw e
                  | FetchResolved response =>
                      if negb (resp_ok response) then
                        if (resp_status response =? 429)%Z then
                          ret (error_response 429
                                 (js "Rate limit exceeded. Please try again later."))
                        else if (resp_status response =? 402)%Z then
                          ret (error_response 402
                                 (js "Payment required. Please add credits to continue."))
                        else
                          errorText <- response_text response ;;
                          emit (LogGatewayError (resp_status response) errorText) ;;;
                          ret (error_response 500 (js "AI service error"))
                      else
                        ret {| status := 200;
                               headers := with_content_type (js "text/event-stream");
                               body := UpstreamBody (resp_body response) |}
                  end
              end
        end
  end.

(** The handler given to [serve]. *)
Definition serve (req : Request) : Response * list relay_effect :=
  if text_eqb (req_method req) (js "OPTIONS") then
    ({| status := 200; headers := corsHeaders; body := NoBody |}, [])
  else
    match answer req with
    | (Returns response, log) => (response, log)
    | (Throws error, log) =>
        (error_response 500
           (match error with
            | ErrorObject message => message
            | OtherValue => js "Unknown error"
            end),
         log ++ [LogFailure error])
    end.

(* =================================================================== *)
(** ** Vocabulary of the statements                                      *)
(* =================================================================== *)

(** The complete lines of a text (those a line feed ends) and what
    follows the last line feed. *)
Fixpoint split_lines (s : text) : list text * text :=
  match s with
  | [] => ([], [])
  | c :: s' =>
      let (ls, tl) := split_lines s' in
      if N.eqb c LF then ([] :: ls, tl)
      else match ls with
           | [] => ([], c :: tl)
           | l :: ls' => ((c :: l) :: ls', tl)
           end
  end.

Definition complete_lines (s : text) : list text := fst (split_lines s).
Definition pending (s : text) : text := snd (split_lines s).

Definition strip_cr (raw : text) : text :=
  if endsWith1 CR raw then slice_drop_last raw else raw.

(** What a complete line is to the decoder. *)
Inductive line_kind : Type :=
| Skipped                       (* comment, blank, or no data prefix *)
| Terminator                    (* the remainder is the sentinel *)
| Delta (content : option text) (* a payload, with its text if any *)
| Unparsed.                     (* the [try] block throws *)

Definition inspect (line : text) : line_kind :=
  if startsWith (js ":") line || text_eqb (trim line) [] then Skipped
  else if negb (startsWith (js "data: ") line) then Skipped
  else
    let jsonStr := trim (slice_from 6 line) in
    if text_eqb jsonStr (js "[DONE]") then Terminator
    else match try_delta jsonStr with
         | Returns c => Delta c
         | Throws _ => Unparsed
         end.

Definition classify (raw : text) : line_kind := inspect (strip_cr raw).

(** Following the specification's words: the concatenation, in arrival
    order, of the delta contents of the well-formed data lines seen
    before the terminator or the end of the stream. *)
Fixpoint deltas_until_done (ls : list text) : text :=
  match ls with
  | [] => []
  | l :: ls' =>
      match classify l with
      | Terminator => []
      | Delta (Some s) => s ++ deltas_until_done ls'
      | _ => deltas_until_done ls'
      end
  end.

Definition claimed_answer (values : list text) : text :=
  deltas_until_done (complete_lines (concat values)).

(** What the inner loop does with the lines of a buffer: the deltas of
    the lines before the first one that is the terminator or that fails
    to parse. *)
Fixpoint deltas_until_stop (ls : list text) : text :=
  match ls with
  | [] => []
  | l :: ls' =>
      match classify l with
      | Terminator | Unparsed => []
      | Delta (Some s) => s ++ deltas_until_stop ls'
      | _ => deltas_until_stop ls'
      end
  end.

Definition assembled (values : list text) : text :=
  deltas_until_stop (complete_lines (concat values)).

(** No line stops the inner loop. *)
Definition runs_through (ls : list text) : bool :=
  forallb (fun l => match classify l with
                    | Terminator | Unparsed => false
                    | _ => true
                    end) ls.

(** No line fails to parse before the terminator. *)
Fixpoint parses_until_done (ls : list text) : bool :=
  match ls with
  | [] => true
  | l :: ls' =>
      match classify l with
      | Terminator => true
      | Unparsed => false
      | _ => parses_until_done ls'
      end
  end.

Definition is_terminator (l : text) : bool :=
  match classify l with Terminator => true | _ => false end.

Definition no_terminator (ls : list text) : bool :=
  forallb (fun l => negb (is_terminator l)) ls.

(** The terminator, if any, is completed by the last chunk only. *)
Definition done_ends_stream (values : list text) : bool :=
  no_terminator (complete_lines (concat (removelast values))).

(** The decoder with [rest] for a buffer. *)
Definition resume (d : decoding) (rest : text) : decoding :=
  {| textBuffer := rest; fullResponse := fullResponse d; screen := screen d |}.

(** The buffer starts with a complete line that fails to parse. *)
Definition stalled (d : decoding) : Prop :=
  exists line rest,
    textBuffer d = line ++ LF :: rest
    /\ indexOf1 LF line = None
    /\ classify line = Unparsed.

Definition all_ws (s : text) : bool := forallb is_ws s.

Definition starts_solid (s : text) : bool :=
  match s with c :: _ => negb (is_ws c) | [] => false end.

(** [s] ends with a character that is neither white space nor a
    backtick. *)
Definition ends_plain (s : text) : bool :=
  match rev s with
  | c :: _ => negb (is_ws c) && negb (N.eqb c 96)
  | [] => false
  end.

(** The closing fence starts nowhere inside [s]. *)
Fixpoint no_close_in (s : text) : bool :=
  match s with
  | [] => true
  | _ :: s' => negb (startsWith fence_close s) && no_close_in s'
  end.

(** The opening fence starts at none of the first [k] positions. *)
Fixpoint no_fence_before (k : nat) (s : text) : bool :=
  match k with
  | O => true
  | S k' =>
      negb (startsWith fence_open s)
      && match s with
         | _ :: s' => no_fence_before k' s'
         | [] => true
         end
  end.

(** The page as [handleSend] leaves it when it calls [streamChat]. *)
Definition sending (messageText : text) (p : page) : page :=
  setIsLoading true (setInput [] (setMessages
    (fun prev => prev ++ [new_message b (draws p) user_role messageText])
    (draw p))).

Definition inserts (p : page) : list effect := filter is_insert (effects p).

(** The two cross-origin headers are present. *)
Definition cors (r : Response) : Prop :=
  header (js "Access-Control-Allow-Origin") (headers r) = Some (js "*")
  /\ header (js "Access-Control-Allow-Headers") (headers r)
     = Some (js "authorization, x-client-info, apikey, content-type").

(** The number 1. *)
Definition one : spec_float := S754_finite false 4503599627370496 (-52).

(** What [Math.random()] returns: a binary64 value of positive sign,
    greater than or equal to zero and less than one. *)
Definition random_number (r : spec_float) : bool :=
  valid_binary prec emax r
  && match r with
     | S754_zero s => negb s
     | S754_finite s _ _ => negb s && SFltb r one
     | _ => false
     end.

(** What [shr] keeps of a significand [M] that it shifts by [j] bits:
    the quotient, and a rounding bit that is set only if the remainder
    is half of [2 ^ j] or more. *)
Definition kept (M j : Z) (x : shr_record) : Prop :=
  (0 <= shr_m x /\ (2 * shr_m x + Z.b2z (shr_r x)) * 2 ^ j <= 2 * M)%Z.

(** A significand and an exponent of a number below 30. *)
Definition below_30 (m e : Z) : Prop :=
  (e <= -48 /\ 0 <= m < 30 * 2 ^ (- e))%Z.

(* =================================================================== *)
(** ** Sample streams, pages and deployments                             *)
(* =================================================================== *)

(** A reading of number literals for the closed instances below, none of
    which contains a number: a literal is false when its significand has
    no digit but 0, and prints as it is written. *)
Fixpoint significand_nonzero (literal : text) : bool :=
  match literal with
  | [] => false
  | c :: rest =>
      if ((c =? 101) || (c =? 69))%N then false
      else ((49 <=? c) && (c <=? 57))%N || significand_nonzero rest
  end.

Definition as_written (literal : text) : text := literal.

Definition lexical : engine :=
  {| Number_ToBoolean := significand_nonzero;
     Number_ToString := as_written;
     error_message := fun name _ => name |}.

(** The number 0.5. *)
Definition half : spec_float := S754_finite false 4503599627370496 (-53).

Definition fresh_page (typed : text) : page :=
  {| messages := [welcome]; input := typed; isLoading := false;
     draws := 0; effects := [] |}.

(** A browser whose relay answers 200 with the given chunks. *)
Definition streaming (values : list text) : browser :=
  {| randomUUID := fun n => js "id-" ++ nat_to_text n;
     Date_now := fun n => Z.of_nat n;
     Math_random := fun _ => half;
     fetch := fun _ _ =>
       FetchResolved {| resp_status := 200;
                        resp_body := Some {| chunks := values;
                                             read_failure := None |} |} |}.

(** [Hel], [lo] and the terminator, cut inside the first payload and
    inside the second line's prefix. *)
Definition hello_values : list text :=
  [ jsq "data: {'choices':[{'delta':{'content':'He";
    jsq "l'}}]}" ++ [CR; LF] ++ [LF] ++ jsq "da";
    jsq "ta: {'choices':[{'delta':{'content':'lo'}}]}" ++ [LF; LF]
      ++ jsq "data: [DONE]" ++ [LF] ].

(** A line that is not JSON, then a well-formed delta. *)
Definition stalled_values : list text :=
  [ jsq "data: {oops" ++ [LF]
      ++ jsq "data: {'choices':[{'delta':{'content':'A'}}]}" ++ [LF] ].

(** The terminator in one chunk, a delta in the next. *)
Definition late_values : list text :=
  [ jsq "data: [DONE]" ++ [LF];
    jsq "data: {'choices':[{'delta':{'content':'X'}}]}" ++ [LF] ].

Definition fenced_block : text :=
  jsq "{'important_topics':['A','B'],'summary':'S'}".

Definition fenced_answer : text :=
  js "Hi " ++ fence_open ++ [LF] ++ fenced_block ++ [LF] ++ fence_close.

Definition fenced_values : list text :=
  [ jsq "data: {'choices':[{'delta':{'content':'Hi ```json\n{\'important_topics\':[\'A\',\'B\'],\'summary\':\'S\'}\n```'}}]}"
      ++ [LF] ++ jsq "data: [DONE]" ++ [LF] ].

Definition plain_values : list text :=
  [ jsq "data: {'choices':[{'delta':{'content':'Hello'}}]}" ++ [LF] ].

Definition u1 : text := js "u1".

Definition post (payload : text) : Request :=
  {| req_method := js "POST"; req_body := payload |}.

(** A configured relay whose upstream answers [upstream]. *)
Definition relay_with (upstream : fetch_response) : deployment :=
  {| LOVABLE_API_KEY := Some (js "secret");
     SUPABASE_URL := Some (js "https://project.supabase.co");
     SUPABASE_SERVICE_ROLE_KEY := Some (js "service");
     createClient := fun _ _ => None;
     select_syllabus := fun _ => Some [];
     select_past_papers := fun _ => Some [];
     gateway := fun _ => FetchResolved upstream |}.

Definition upstream_ok : fetch_response :=
  {| resp_status := 200;
     resp_body := Some {| chunks := hello_values; read_failure := None |} |}.

Definition upstream_down : fetch_response :=
  {| resp_status := 503;
     resp_body := Some {| chunks := [js "over"; js "loaded"];
                          read_failure := None |} |}.

(** A line that is not JSON in one chunk, a well-formed delta in the
    next. *)
Definition retry_values : list text :=
  [ jsq "data: {oops" ++ [LF];
    jsq "data: {'choices':[{'delta':{'content':'A'}}]}" ++ [LF] ].

(** The decoder as the first chunk [value] of a stream arrives. *)
Definition arriving (value : text) (p : page) : decoding :=
  {| textBuffer := value; fullResponse := []; screen := p |}.

(** An upstream that answers 503 with a body that fails while it is
    read. *)
Definition upstream_broken : fetch_response :=
  {| resp_status := 503;
     resp_body := Some {| chunks := [js "over"];
                          read_failure := Some (ErrorObject (js "boom")) |} |}.

(** A relay whose database holds three past papers of two years. *)
Definition relay_with_papers : deployment :=
  {| LOVABLE_API_KEY := Some (js "secret");
     SUPABASE_URL := Some (js "https://project.supabase.co");
     SUPABASE_SERVICE_ROLE_KEY := Some (js "service");
     createClient := fun _ _ => None;
     select_syllabus := fun _ => Some [];
     select_past_papers := fun _ =>
       Some [ {| year := js "2021"; subject := js "Signals" |};
              {| year := js "2022"; subject := js "Signals" |};
              {| year := js "2021"; subject := js "Control" |} ];
     gateway := fun _ => FetchResolved upstream_ok |}.

Definition stalled_buffer : decoding :=
  {| textBuffer := jsq "data: {oops" ++ [LF] ++ jsq "data: [DONE]" ++ [LF];
     fullResponse := js "so far"; screen := fresh_page [] |}.

(** The start of a data line, without its line feed. *)
Definition partial_line : text := jsq "data: {'choices':[{'del".

(** The lines of a stream: two deltas, a blank line between them, and
    the terminator. *)
Definition hello_lines : list text :=
  [ jsq "data: {'choices':[{'delta':{'content':'Hel'}}]}";
    [];
    jsq "data: {'choices':[{'delta':{'content':'lo'}}]}";
    js "data: [DONE]" ].

(** A browser whose relay answers with the status [code] and no body. *)
Definition refusing (code : Z) : browser :=
  {| randomUUID := fun n => js "id-" ++ nat_to_text n;
     Date_now := fun n => Z.of_nat n;
     Math_random := fun _ => half;
     fetch := fun _ _ =>
       FetchResolved {| resp_status := code; resp_body := None |} |}.

(** A browser whose relay answers 200 and whose body fails after the
    given chunks. *)
Definition breaking (values : list text) : browser :=
  {| randomUUID := fun n => js "id-" ++ nat_to_text n;
     Date_now := fun n => Z.of_nat n;
     Math_random := fun _ => half;
     fetch := fun _ _ =>
       FetchResolved {| resp_status := 200;
                        resp_body := Some {| chunks := values;
                                             read_failure := Some OtherValue |} |} |}.

(** An answer whose block has a string for its topics. *)
Definition untyped_block : text :=
  jsq "{'important_topics':'A','summary':'S'}".

Definition untyped_answer : text :=
  js "Hi " ++ fence_open ++ [LF] ++ untyped_block ++ [LF] ++ fence_close.

(** A relay without its gateway key. *)
Definition relay_without_key : deployment :=
  {| LOVABLE_API_KEY := None;
     SUPABASE_URL := Some (js "https://project.supabase.co");
     SUPABASE_SERVICE_ROLE_KEY := Some (js "service");
     createClient := fun _ _ => None;
     select_syllabus := fun _ => Some [];
     select_past_papers := fun _ => Some [];
     gateway := fun _ => FetchResolved upstream_ok |}.

(* =================================================================== *)
(** ** Vocabulary of the further properties                              *)
(* =================================================================== *)

Definition is_fetch (e : effect) : bool :=
  match e with Fetch _ _ => true | _ => false end.

Definition is_select (e : relay_effect) : bool :=
  match e with SelectSyllabus _ | SelectPastPapers _ => true | _ => false end.

(** The test [show_streaming] makes on the transcript: its last message
    is an assistant's and is not the welcome. *)
Definition streaming_last (ms : list Message) : bool :=
  match rev ms with
  | last :: _ => is_assistant (msg_role last)
                 && negb (text_eqb (msg_id last) (js "welcome"))
  | [] => false
  end.

(** A line of a stream as the sender writes it: no line feed inside, no
    carriage return at its end. *)
Definition plain_line (l : text) : bool :=
  match indexOf1 LF l with None => true | Some _ => false end
  && negb (endsWith1 CR l).

(** The lines [ls], each followed by the line ending [eol]. *)
Definition event_stream (eol : text) (ls : list text) : text :=
  concat (List.map (fun l => l ++ eol) ls).

(** The topic records of [topics] with the likelihoods [probs]. *)
Definition topic_records (user_id : text) (topics : list json) (probs : list Z)
  : list effect :=
  List.map (fun tp => InsertTopic user_id General (fst tp) (snd tp))
           (combine topics probs).

(** What the transcript shows of the answer while it streams: nothing
    yet, or one assistant message after [base] that holds the answer so
    far. *)
Definition shown (base : list Message) (d : decoding) : Prop :=
  (messages (screen d) = base /\ fullResponse d = [])
  \/ exists m,
       messages (screen d) = base ++ [m]
       /\ msg_content m = fullResponse d
       /\ msg_role m = assistant_role
       /\ text_eqb (msg_id m) (js "welcome") = false.

(** The queries the relay runs for a request's [userId]: both, in this
    order, or none. *)
Definition selects (userId : jsval) : list relay_effect :=
  match userId with
  | Some uid =>
      if truthy userId then [SelectSyllabus uid; SelectPastPapers uid] else []
  | None => []
  end.

(** What the relay writes with [console.error]. *)
Definition is_error_log (e : relay_effect) : bool :=
  match e with LogGatewayError _ _ | LogFailure _ => true | _ => false end.

(* =================================================================== *)
(** ** Lines of a buffer                                                 *)
(* =================================================================== *)

Lemma indexOf1_none_split (s : text) :
  indexOf1 LF s = None -> split_lines s = ([], s).
Proof.
  induction s as [|c s IH]; simpl; [reflexivity|].
  destruct (N.eqb c LF); [discriminate|].
  destruct (indexOf1 LF s); [discriminate|].
  intros _. rewrite IH by reflexivity. reflexivity.
Qed.

Lemma indexOf1_some_split (s : text) (n : nat) :
  indexOf1 LF s = Some n ->
  split_lines s = (slice_to n s :: complete_lines (slice_from (n + 1) s),
                   pending (slice_from (n + 1) s))
  /\ length (slice_from (n + 1) s) < length s.
Proof.
  unfold slice_to, slice_from, complete_lines, pending.
  rewrite Nat.add_1_r. revert n.
  induction s as [|c s IH]; simpl; intros n; [discriminate|].
  destruct (N.eqb c LF) eqn:Ec.
  - intros [= <-]. simpl. destruct (split_lines s). split; [reflexivity|lia].
  - destruct (indexOf1 LF s) as [m|]; [|discriminate].
    intros [= <-]. destruct (IH m eq_refl) as [IH1 IH2].
    rewrite IH1. simpl. split; [reflexivity|].
    simpl in IH2. destruct s; simpl in *; lia.
Qed.

Lemma split_lines_app (x y : text) :
  split_lines (x ++ y)
  = (complete_lines x ++ complete_lines (pending x ++ y),
     pending (pending x ++ y)).
Proof.
  unfold complete_lines, pending.
  induction x as [|c x IH]; simpl.
  - destruct (split_lines y); reflexivity.
  - rewrite IH. destruct (split_lines x) as [ls tl]. simpl.
    destruct (N.eqb c LF) eqn:Ec; simpl.
    + reflexivity.
    + destruct ls as [|l ls]; simpl.
      * rewrite Ec. destruct (split_lines (tl ++ y)) as [ls' tl'].
        simpl. destruct ls'; reflexivity.
      * reflexivity.
Qed.

Lemma pending_no_newline (s : text) : indexOf1 LF (pending s) = None.
Proof.
  unfold pending. induction s as [|c s IH]; simpl; [reflexivity|].
  destruct (split_lines s) as [ls tl]. simpl in IH.
  destruct (N.eqb c LF) eqn:Ec; simpl; [exact IH|].
  destruct ls; simpl; [|exact IH].
  rewrite Ec, IH. reflexivity.
Qed.

Lemma indexOf1_firstn (s : text) (n : nat) :
  indexOf1 LF s = Some n -> indexOf1 LF (firstn n s) = None.
Proof.
  revert n. induction s as [|c s IH]; simpl; intros n; [discriminate|].
  destruct (N.eqb c LF) eqn:Ec.
  - intros [= <-]. reflexivity.
  - destruct (indexOf1 LF s) as [m|]; [|discriminate].
    intros [= <-]. simpl. rewrite Ec, (IH m eq_refl). reflexivity.
Qed.

Lemma indexOf1_removelast (s : text) :
  indexOf1 LF s = None -> indexOf1 LF (removelast s) = None.
Proof.
  induction s as [|c s IH]; [reflexivity|].
  simpl. destruct (N.eqb c LF) eqn:Ec; [discriminate|].
  destruct (indexOf1 LF s); [discriminate|]. intros _.
  destruct s; [reflexivity|]. simpl in *. rewrite Ec.
  rewrite IH; reflexivity.
Qed.

Lemma indexOf1_found (x y : text) :
  indexOf1 LF x = None ->
  indexOf1 LF (x ++ LF :: y) = Some (length x)
  /\ slice_to (length x) (x ++ LF :: y) = x
  /\ slice_from (length x + 1) (x ++ LF :: y) = y.
Proof.
  unfold slice_to, slice_from. rewrite Nat.add_1_r.
  induction x as [|c x IH]; simpl; [auto|].
  destruct (N.eqb c LF); [discriminate|].
  destruct (indexOf1 LF x); [discriminate|]. intros _.
  destruct (IH eq_refl) as (A & B & C). rewrite A.
  repeat split; [f_equal; exact B|exact C].
Qed.

Lemma strip_cr_no_newline (raw : text) :
  indexOf1 LF raw = None -> indexOf1 LF (strip_cr raw) = None.
Proof.
  unfold strip_cr, slice_drop_last. destruct (endsWith1 CR raw); [|auto].
  apply indexOf1_removelast.
Qed.

Lemma drop_ws_solid_end (s : text) (c : N) :
  is_ws c = false -> drop_ws (s ++ [c]) <> [].
Proof.
  intros Hc. induction s as [|x s IH]; simpl.
  - rewrite Hc. discriminate.
  - destruct (is_ws x); [exact IH|discriminate].
Qed.

(** A line with the data prefix is neither a comment nor blank. *)
Lemma data_line_is_read (line : text) :
  startsWith (js "data: ") line = true ->
  startsWith (js ":") line || text_eqb (trim line) [] = false.
Proof.
  destruct line as [|c line]; [discriminate|].
  change (js "data: ") with (100 :: js "ata: ")%N.
  cbn [startsWith]. intros H. apply andb_prop in H as [H _].
  apply N.eqb_eq in H. subst c. cbn [startsWith js].
  replace (text_eqb (trim (100%N :: line)) []) with false; [reflexivity|].
  symmetry. unfold trim. cbn [drop_ws]. change (is_ws 100) with false. cbv iota.
  cbn [rev].
  pose proof (@drop_ws_solid_end (rev line) 100%N eq_refl) as Hne.
  destruct (drop_ws (rev line ++ [100%N])) as [|x t]; [contradiction|].
  cbn [rev]. destruct (rev t); reflexivity.
Qed.

Lemma drop_ws_app (y z : text) :
  drop_ws (y ++ z) = match drop_ws y with
                     | [] => drop_ws z
                     | _ :: _ => drop_ws y ++ z
                     end.
Proof.
  induction y as [|c y IH]; simpl; [destruct (drop_ws z); reflexivity|].
  destruct (is_ws c); [exact IH|reflexivity].
Qed.

(** [trim] does not see a white space added at the end. *)
Lemma trim_ws_end (y : text) (c : N) :
  is_ws c = true -> trim (y ++ [c]) = trim y.
Proof.
  intros Hc. unfold trim. rewrite drop_ws_app.
  destruct (drop_ws y) as [|x t] eqn:E.
  - simpl. rewrite Hc. reflexivity.
  - rewrite rev_app_distr. simpl rev at 1. cbn [app drop_ws]. rewrite Hc.
    reflexivity.
Qed.

Lemma endsWith1_split (c : N) (s : text) :
  endsWith1 c s = true -> exists x, s = x ++ [c].
Proof.
  unfold endsWith1. destruct (rev s) as [|y t] eqn:E; [discriminate|].
  intros H. apply N.eqb_eq in H. subst y. exists (rev t).
  rewrite <- (rev_involutive s), E. reflexivity.
Qed.

(** The data prefix survives the removal of a final carriage return. *)
Lemma data_prefix_before_cr (x : text) :
  startsWith (js "data: ") (x ++ [CR]) = true ->
  startsWith (js "data: ") x = true /\ 6 <= length x.
Proof.
  change (js "data: ") with [100; 97; 116; 97; 58; 32]%N.
  do 6 (destruct x as [|? x];
        [ cbn [app startsWith]; intros H;
          repeat (apply andb_prop in H as [? H]); discriminate |]).
  cbn [app startsWith length]. intros H.
  repeat (apply andb_prop in H as [?E H]). rewrite E, E0, E1, E2, E3, E4.
  split; [reflexivity|lia].
Qed.

(** Stripping the carriage return of a line a second time does not
    change what the line is to the decoder. *)
Lemma inspect_strip_cr (line : text) :
  inspect line = Unparsed -> inspect (strip_cr line) = Unparsed.
Proof.
  unfold strip_cr, slice_drop_last.
  destruct (endsWith1 CR line) eqn:E; [|auto].
  destruct (endsWith1_split _ _ E) as [x ->]. rewrite removelast_last.
  unfold inspect.
  destruct (startsWith (js ":") (x ++ [CR]) || text_eqb (trim (x ++ [CR])) []);
    [discriminate|].
  destruct (startsWith (js "data: ") (x ++ [CR])) eqn:Hd; [|discriminate].
  destruct (data_prefix_before_cr _ Hd) as [Hx Hlen].
  rewrite (data_line_is_read _ Hx), Hx. simpl negb. cbv iota zeta.
  unfold slice_from. rewrite skipn_app.
  replace (6 - length x) with 0 by lia. change (skipn 0 [CR]) with [CR].
  rewrite (@trim_ws_end (skipn 6 x) CR eq_refl). auto.
Qed.

(* =================================================================== *)
(** ** The inner loop, line by line                                      *)
(* =================================================================== *)

(** One iteration of the inner loop is the case analysis [classify]
    names. *)
Lemma lines_loop_step (fuel : nat) (d : decoding) (n : nat) :
  indexOf1 LF (textBuffer d) = Some n ->
  lines_loop (S fuel) d =
    let raw := slice_to n (textBuffer d) in
    let rest := slice_from (n + 1) (textBuffer d) in
    match classify raw with
    | Skipped | Delta None => lines_loop fuel (resume d rest)
    | Terminator => resume d rest
    | Delta (Some c) =>
        lines_loop fuel
          {| textBuffer := rest; fullResponse := fullResponse d ++ c;
             screen := show_streaming b (fullResponse d ++ c) (screen d) |}
    | Unparsed => resume d (strip_cr raw ++ [LF] ++ rest)
    end.
Proof.
  intros E. cbn [lines_loop]. rewrite E.
  unfold classify, inspect, strip_cr, resume. cbv zeta.
  destruct (startsWith (js ":") _ || text_eqb (trim _) []); [reflexivity|].
  destruct (negb (startsWith (js "data: ") _)); [reflexivity|].
  destruct (text_eqb (trim (slice_from 6 _)) (js "[DONE]")); [reflexivity|].
  destruct (try_delta _) as [[c|]|e]; reflexivity.
Qed.

Lemma lines_loop_idle (fuel : nat) (d : decoding) :
  indexOf1 LF (textBuffer d) = None -> lines_loop fuel d = d.
Proof. intros E. destruct fuel; cbn [lines_loop]; [|rewrite E]; reflexivity. Qed.

(** The fuel [on_chunk] gives is never used up: any two amounts above
    the length of the buffer give the same run. *)
Lemma lines_loop_fuel (f1 f2 : nat) (d : decoding) :
  length (textBuffer d) < f1 -> length (textBuffer d) < f2 ->
  lines_loop f1 d = lines_loop f2 d.
Proof.
  revert f2 d. induction f1 as [|f1 IH]; intros f2 d H1 H2; [lia|].
  destruct f2 as [|f2]; [lia|].
  destruct (indexOf1 LF (textBuffer d)) as [n|] eqn:E.
  - rewrite !(lines_loop_step _ _ E). cbv zeta.
    destruct (indexOf1_some_split _ E) as [_ Hlen].
    destruct (classify _) as [| |[c|]|]; try reflexivity;
      apply IH; simpl; lia.
  - rewrite !lines_loop_idle by assumption. reflexivity.
Qed.

(** The inner loop appends the deltas of the lines before the first one
    that stops it, in order. *)
Lemma lines_loop_answer (fuel : nat) (d : decoding) :
  length (textBuffer d) < fuel ->
  fullResponse (lines_loop fuel d)
  = fullResponse d ++ deltas_until_stop (complete_lines (textBuffer d)).
Proof.
  revert d. induction fuel as [|fuel IH]; intros d Hlen; [lia|].
  destruct (indexOf1 LF (textBuffer d)) as [n|] eqn:E.
  - rewrite (lines_loop_step _ _ E). cbv zeta.
    destruct (indexOf1_some_split _ E) as [Hs Hshort].
    unfold complete_lines in *. rewrite Hs. simpl.
    destruct (classify (slice_to n (textBuffer d))) as [| |[c|]|]; simpl.
    + apply IH. simpl. lia.
    + symmetry. apply app_nil_r.
    + rewrite app_assoc.
      apply (IH {| textBuffer := slice_from (n + 1) (textBuffer d);
                   fullResponse := fullResponse d ++ c;
                   screen := show_streaming b (fullResponse d ++ c) (screen d) |}).
      simpl. lia.
    + apply IH. simpl. lia.
    + symmetry. apply app_nil_r.
  - rewrite lines_loop_idle by assumption.
    unfold complete_lines. rewrite (indexOf1_none_split _ E). simpl.
    symmetry. apply app_nil_r.
Qed.

(** Without a terminator among its lines, the inner loop either reads
    them all and leaves the unfinished line in the buffer, or stops at a
    line that fails to parse and leaves it at the front of the buffer. *)
Lemma lines_loop_buffer (fuel : nat) (d : decoding) :
  length (textBuffer d) < fuel ->
  no_terminator (complete_lines (textBuffer d)) = true ->
  (runs_through (complete_lines (textBuffer d)) = true
   /\ textBuffer (lines_loop fuel d) = pending (textBuffer d))
  \/ (runs_through (complete_lines (textBuffer d)) = false
      /\ stalled (lines_loop fuel d)).
Proof.
  revert d. induction fuel as [|fuel IH]; intros d Hlen Ht; [lia|].
  destruct (indexOf1 LF (textBuffer d)) as [n|] eqn:E.
  - rewrite (lines_loop_step _ _ E). cbv zeta.
    destruct (indexOf1_some_split _ E) as [Hs Hshort].
    unfold complete_lines, pending in *. rewrite Hs in *.
    unfold no_terminator, is_terminator, runs_through in *. simpl in *.
    destruct (classify (slice_to n (textBuffer d))) as [| |[c|]|] eqn:Ec;
      simpl in *; try discriminate.
    + apply (IH (resume d (slice_from (n + 1) (textBuffer d))));
        simpl; [lia|assumption].
    + apply (IH {| textBuffer := slice_from (n + 1) (textBuffer d);
                   fullResponse := fullResponse d ++ c;
                   screen := show_streaming b (fullResponse d ++ c) (screen d) |});
        simpl; [lia|assumption].
    + apply (IH (resume d (slice_from (n + 1) (textBuffer d))));
        simpl; [lia|assumption].
    + right. split; [reflexivity|].
      exists (strip_cr (slice_to n (textBuffer d))),
             (slice_from (n + 1) (textBuffer d)).
      repeat split.
      * apply strip_cr_no_newline, indexOf1_firstn, E.
      * apply inspect_strip_cr, Ec.
  - rewrite lines_loop_idle by assumption. left.
    unfold complete_lines, pending. rewrite (indexOf1_none_split _ E).
    split; reflexivity.
Qed.

(** The terminator ends the inner loop only: the lines after it stay in
    the buffer, and the next read goes on with them. *)
Lemma terminator_only_pauses (fuel : nat) (d : decoding) (n : nat) (value : text) :
  indexOf1 LF (textBuffer d) = Some n ->
  classify (slice_to n (textBuffer d)) = Terminator ->
  lines_loop (S fuel) d = resume d (slice_from (n + 1) (textBuffer d))
  /\ on_chunk (lines_loop (S fuel) d) value
     = lines_loop (S (length (slice_from (n + 1) (textBuffer d) ++ value)))
         (resume d (slice_from (n + 1) (textBuffer d) ++ value)).
Proof.
  intros E Hc. rewrite (lines_loop_step _ _ E). cbv zeta. rewrite Hc.
  split; reflexivity.
Qed.

(* =================================================================== *)
(** ** A line that fails to parse                                        *)
(* =================================================================== *)

(** Once a line that fails to parse is at the front of the buffer, every
    read finds it there again, fails on it again and appends nothing. *)
Lemma stalled_on_chunk (d : decoding) (value : text) :
  stalled d ->
  stalled (on_chunk d value) /\ fullResponse (on_chunk d value) = fullResponse d.
Proof.
  intros (line & rest & Hb & Hn & Hc). unfold on_chunk.
  set (d0 := {| textBuffer := textBuffer d ++ value;
                fullResponse := fullResponse d; screen := screen d |}).
  assert (Hb0 : textBuffer d0 = line ++ LF :: (rest ++ value)).
  { simpl. rewrite Hb, <- app_assoc. reflexivity. }
  destruct (@indexOf1_found line (rest ++ value) Hn) as (E & Hline & Hrest).
  rewrite <- Hb0 in E, Hline, Hrest.
  rewrite (lines_loop_step _ _ E). cbv zeta. rewrite Hline, Hc, Hrest.
  split; [|reflexivity].
  exists (strip_cr line), (rest ++ value).
  repeat split; [apply strip_cr_no_newline, Hn | apply inspect_strip_cr, Hc].
Qed.

Lemma stalled_read_loop (values : list text) (d : decoding) :
  stalled d ->
  stalled (read_loop values d)
  /\ fullResponse (read_loop values d) = fullResponse d.
Proof.
  revert d. induction values as [|v vs IH]; intros d Hd; [auto|].
  destruct (stalled_on_chunk v Hd) as [H1 H2].
  destruct (IH _ H1) as [H3 H4]. simpl. unfold read_loop in *.
  rewrite H4, H2. auto.
Qed.

Lemma no_terminator_app (l1 l2 : list text) :
  no_terminator (l1 ++ l2) = no_terminator l1 && no_terminator l2.
Proof. apply forallb_app. Qed.

Lemma runs_through_app (l1 l2 : list text) :
  runs_through (l1 ++ l2) = runs_through l1 && runs_through l2.
Proof. apply forallb_app. Qed.

Lemma deltas_until_stop_through (l1 l2 : list text) :
  runs_through l1 = true ->
  deltas_until_stop (l1 ++ l2) = deltas_until_stop l1 ++ deltas_until_stop l2.
Proof.
  unfold runs_through.
  induction l1 as [|l l1 IH]; simpl; [reflexivity|].
  destruct (classify l) as [| |[c|]|]; simpl; auto; try discriminate.
  intros H. rewrite IH by assumption. apply app_assoc.
Qed.

Lemma deltas_until_stop_stopped (l1 l2 : list text) :
  runs_through l1 = false ->
  deltas_until_stop (l1 ++ l2) = deltas_until_stop l1.
Proof.
  unfold runs_through.
  induction l1 as [|l l1 IH]; simpl; [discriminate|].
  destruct (classify l) as [| |[c|]|]; simpl; auto.
  intros H. rewrite IH by assumption. reflexivity.
Qed.

(** Where every line parses up to the terminator, the deltas before the
    first stop are the deltas the specification names. *)
Lemma deltas_until_stop_done (ls : list text) :
  parses_until_done ls = true -> deltas_until_stop ls = deltas_until_done ls.
Proof.
  induction ls as [|l ls IH]; simpl; [reflexivity|].
  destruct (classify l) as [| |[c|]|]; auto; try discriminate.
  intros H. rewrite IH by assumption. reflexivity.
Qed.

(* =================================================================== *)
(** ** The outer loop                                                    *)
(* =================================================================== *)

(** Chunks none of which completes a terminator: whatever the chunk
    boundaries, the answer grows by the deltas of the complete lines
    before the first that fails to parse. *)
Lemma read_loop_answer (values : list text) (d : decoding) :
  indexOf1 LF (textBuffer d) = None ->
  no_terminator (complete_lines (textBuffer d ++ concat values)) = true ->
  fullResponse (read_loop values d)
  = fullResponse d
    ++ deltas_until_stop (complete_lines (textBuffer d ++ concat values))
  /\ ((runs_through (complete_lines (textBuffer d ++ concat values)) = true
       /\ textBuffer (read_loop values d)
          = pending (textBuffer d ++ concat values))
      \/ (runs_through (complete_lines (textBuffer d ++ concat values)) = false
          /\ stalled (read_loop values d))).
Proof.
  revert d. induction values as [|v vs IH]; intros d Hd Ht; simpl in *.
  - rewrite app_nil_r. unfold complete_lines, pending.
    rewrite (indexOf1_none_split _ Hd). simpl. rewrite app_nil_r. auto.
  - rewrite app_assoc in Ht. rewrite app_assoc.
    unfold complete_lines, pending in *.
    rewrite split_lines_app in Ht. rewrite split_lines_app.
    simpl in Ht. simpl.
    rewrite no_terminator_app in Ht. apply andb_prop in Ht as [Ht1 Ht2].
    set (d0 := {| textBuffer := textBuffer d ++ v;
                  fullResponse := fullResponse d; screen := screen d |}).
    change (on_chunk d v) with (lines_loop (S (length (textBuffer d ++ v))) d0).
    set (d1 := lines_loop (S (length (textBuffer d ++ v))) d0).
    assert (Hfull : fullResponse d1
                    = fullResponse d
                      ++ deltas_until_stop (fst (split_lines (textBuffer d ++ v)))).
    { apply (@lines_loop_answer _ d0). simpl. lia. }
    destruct (@lines_loop_buffer (S (length (textBuffer d ++ v))) d0)
      as [[Hrun Hbuf]|[Hrun Hst]]; [simpl; lia|exact Ht1| |].
    + fold d1 in Hbuf. simpl in Hbuf, Hrun.
      destruct (IH d1) as [IH1 IH2].
      * rewrite Hbuf. apply pending_no_newline.
      * rewrite Hbuf. exact Ht2.
      * unfold read_loop in *. rewrite IH1, Hfull, Hbuf.
        rewrite (deltas_until_stop_through _ _ Hrun), app_assoc.
        split; [reflexivity|].
        rewrite runs_through_app, Hrun. simpl.
        rewrite Hbuf in IH2. exact IH2.
    + fold d1 in Hst. simpl in Hrun.
      destruct (stalled_read_loop vs Hst) as [H1 H2].
      unfold read_loop in *. rewrite H2, Hfull.
      rewrite (deltas_until_stop_stopped _ _ Hrun).
      split; [reflexivity|]. right.
      rewrite runs_through_app, Hrun. auto.
Qed.

(** The same with a last chunk that may complete the terminator. *)
Lemma read_loop_assembles (values : list text) (p : page) :
  done_ends_stream values = true ->
  fullResponse (read_loop values (start_decoding p)) = assembled values.
Proof.
  unfold done_ends_stream, assembled. intros Ht.
  destruct values as [|v0 vs] using rev_ind; [reflexivity|]. clear IHvs.
  rename v0 into last. rename vs into init.
  rewrite removelast_last in Ht.
  rewrite concat_app. simpl concat. rewrite app_nil_r.
  unfold complete_lines in *. rewrite split_lines_app. simpl fst.
  unfold read_loop. rewrite fold_left_app. simpl fold_left.
  fold (read_loop init (start_decoding p)).
  destruct (@read_loop_answer init (start_decoding p)) as [Hfull Hcase];
    [reflexivity|exact Ht|].
  simpl in Hfull, Hcase. unfold complete_lines, pending in *.
  set (d1 := read_loop init (start_decoding p)) in *.
  destruct Hcase as [[Hrun Hbuf]|[Hrun Hst]].
  - set (d2 := {| textBuffer := textBuffer d1 ++ last;
                  fullResponse := fullResponse d1; screen := screen d1 |}).
    change (on_chunk d1 last)
      with (lines_loop (S (length (textBuffer d1 ++ last))) d2).
    rewrite (@lines_loop_answer _ d2) by (simpl; lia).
    simpl. rewrite Hfull, Hbuf.
    rewrite (deltas_until_stop_through _ _ Hrun). reflexivity.
  - destruct (stalled_on_chunk last Hst) as [_ H]. rewrite H, Hfull.
    rewrite (deltas_until_stop_stopped _ _ Hrun). reflexivity.
Qed.

(** Two ways of cutting the same text into chunks give the same answer. *)
Corollary chunking_is_irrelevant (values1 values2 : list text) (p1 p2 : page) :
  concat values1 = concat values2 ->
  done_ends_stream values1 = true -> done_ends_stream values2 = true ->
  fullResponse (read_loop values1 (start_decoding p1))
  = fullResponse (read_loop values2 (start_decoding p2)).
Proof.
  intros Hc H1 H2. rewrite !read_loop_assembles by assumption.
  unfold assembled. rewrite Hc. reflexivity.
Qed.

(* =================================================================== *)
(** ** The relay                                                         *)
(* =================================================================== *)

Lemma text_eqb_refl (a : text) : text_eqb a a = true.
Proof. induction a; simpl; [|rewrite N.eqb_refl]; auto. Qed.

Lemma text_eqb_eq (a c : text) : text_eqb a c = true <-> a = c.
Proof.
  split; [|intros <-; apply text_eqb_refl].
  revert c. induction a as [|x a IH]; intros [|y c]; simpl; try discriminate; auto.
  intros H. apply andb_prop in H as [H1 H2].
  apply N.eqb_eq in H1. f_equal; auto.
Qed.

(** The database look-ups return; they add no gateway call. *)
Lemma contexts_returns (userId : jsval) :
  exists ctx log, contexts userId = (Returns ctx, log)
                  /\ existsb is_gateway_call log = false.
Proof.
  unfold contexts. destruct userId as [uid|]; [|eexists _, _; split; reflexivity].
  destruct (truthy (Some uid)); eexists _, _; split; reflexivity.
Qed.

Lemma contexts_log (userId : jsval) :
  exists ctx, contexts userId = (Returns ctx, selects userId).
Proof.
  unfold contexts, selects. destruct userId as [uid|]; [|eexists; reflexivity].
  destruct (truthy (Some uid)); eexists; reflexivity.
Qed.

Lemma selects_call_nothing (userId : jsval) :
  filter is_gateway_call (selects userId) = [].
Proof.
  unfold selects. destruct userId as [uid|]; [|reflexivity].
  destruct (truthy (Some uid)); reflexivity.
Qed.

Lemma selects_log_nothing (userId : jsval) :
  existsb is_error_log (selects userId) = false.
Proof.
  unfold selects. destruct userId as [uid|]; [|reflexivity].
  destruct (truthy (Some uid)); reflexivity.
Qed.

Lemma selects_error_free (userId : jsval) :
  filter is_error_log (selects userId) = [].
Proof.
  unfold selects. destruct userId as [uid|]; [|reflexivity].
  destruct (truthy (Some uid)); reflexivity.
Qed.

Lemma cors_error_response (code : Z) (message : text) :
  cors (error_response code message).
Proof. split; reflexivity. Qed.

Lemma answer_cors (req : Request) (r : Response) (log : list relay_effect) :
  answer req = (Returns r, log) -> cors r.
Proof.
  unfold answer.
  destruct (JSON_parse (req_body req)) as [parsed|]; [|discriminate].
  destruct (contexts_returns (get (js "userId") parsed)) as (ctx & l & Hc & _).
  destruct parsed; try discriminate;
    (destruct (negb (truthy _)); [intros [= <- _]; apply cors_error_response|];
     destruct (LOVABLE_API_KEY w) as [key|]; [|discriminate];
     destruct (text_eqb key []); [discriminate|];
     destruct (createClient w _ _); [discriminate|];
     rewrite Hc; unfold bind, emit, ret, throw; cbv zeta;
     destruct (gateway w _) as [e|response]; [discriminate|];
     destruct (negb (resp_ok response));
     [ destruct (resp_status response =? 429)%Z;
         [intros [= <- _]; apply cors_error_response|];
       destruct (resp_status response =? 402)%Z;
         [intros [= <- _]; apply cors_error_response|];
       unfold response_text;
       destruct (resp_body response) as [[cs [e|]]|];
         try discriminate; intros [= <- _]; apply cors_error_response
     | intros [= <- _]; split; reflexivity ]).
Qed.

(** C10. Every response of the relay (preflight, validation error,
    translated upstream error, internal exception, streaming success)
    carries the two permissive cross-origin headers. *)
Theorem every_response_carries_cors (req : Request) :
  header (js "Access-Control-Allow-Origin") (headers (fst (serve req)))
  = Some (js "*")
  /\ header (js "Access-Control-Allow-Headers") (headers (fst (serve req)))
     = Some (js "authorization, x-client-info, apikey, content-type").
Proof.
  change (cors (fst (serve req))). unfold serve.
  destruct (text_eqb (req_method req) (js "OPTIONS")); [split; reflexivity|].
  destruct (answer req) as [[r|e] log] eqn:E; simpl.
  - exact (answer_cors _ E).
  - apply cors_error_response.
Qed.

Lemma post_is_not_options (req : Request) :
  req_method req = js "POST" ->
  text_eqb (req_method req) (js "OPTIONS") = false.
Proof. intros ->. reflexivity. Qed.

(** C2 (amended). A POST request whose JSON object has no question, or
    the empty string for one, is answered 400 with the body
    [{"error": "Question is required"}], and nothing is called: neither
    the database nor the upstream provider. *)
Theorem missing_or_empty_question_is_rejected
    (req : Request) (ms : list (text * json)) :
  req_method req = js "POST" ->
  JSON_parse (req_body req) = Some (JObj ms) ->
  own_property (js "question") ms = None
  \/ own_property (js "question") ms = Some (JStr []) ->
  status (fst (serve req)) = 400%Z
  /\ body (fst (serve req))
     = JsonBody (JObj [(js "error", JStr (js "Question is required"))])
  /\ snd (serve req) = [].
Proof.
  intros Hm Hb Hq. unfold serve. rewrite (post_is_not_options _ Hm).
  unfold answer. rewrite Hb. simpl get.
  destruct Hq as [-> | ->]; simpl; repeat split; reflexivity.
Qed.

(** C5 (amended). For a POST request with a non-empty question that
    reaches the upstream provider: a 429 from upstream is answered 429
    with the rate-limit message, a 402 is answered 402 with the credits
    message, and a success is answered 200 with the upstream body as it
    is and the content type [text/event-stream].  Any other status
    outside 200..299 is answered 500: with [{"error": "AI service
    error"}], once the upstream status and body are logged, when the
    upstream body can be read; with the message of the failure, which is
    logged in place of the status and body, when reading the body
    fails. *)
Theorem upstream_status_is_translated
    (req : Request) (ms : list (text * json)) (question key : text)
    (upstream : fetch_response) :
  req_method req = js "POST" ->
  JSON_parse (req_body req) = Some (JObj ms) ->
  own_property (js "question") ms = Some (JStr question) ->
  question <> [] ->
  LOVABLE_API_KEY w = Some key -> key <> [] ->
  createClient w (SUPABASE_URL w) (SUPABASE_SERVICE_ROLE_KEY w) = None ->
  (forall call, gateway w call = FetchResolved upstream) ->
  (resp_status upstream = 429%Z ->
     status (fst (serve req)) = 429%Z
     /\ body (fst (serve req))
        = JsonBody (JObj [(js "error",
             JStr (js "Rate limit exceeded. Please try again later."))]))
  /\ (resp_status upstream = 402%Z ->
     status (fst (serve req)) = 402%Z
     /\ body (fst (serve req))
        = JsonBody (JObj [(js "error",
             JStr (js "Payment required. Please add credits to continue."))]))
  /\ (resp_ok upstream = false ->
      resp_status upstream <> 429%Z -> resp_status upstream <> 402%Z ->
      (forall errorText,
         response_text upstream = ret errorText ->
         status (fst (serve req)) = 500%Z
         /\ body (fst (serve req))
            = JsonBody (JObj [(js "error", JStr (js "AI service error"))])
         /\ filter is_error_log (snd (serve req))
            = [LogGatewayError (resp_status upstream) errorText])
      /\ (forall e,
            response_text upstream = throw e ->
            status (fst (serve req)) = 500%Z
            /\ body (fst (serve req))
               = JsonBody (JObj [(js "error",
                    JStr (match e with
                          | ErrorObject message => message
                          | OtherValue => js "Unknown error"
                          end))])
            /\ filter is_error_log (snd (serve req)) = [LogFailure e]))
  /\ (resp_ok upstream = true ->
        fst (serve req)
        = {| status := 200;
             headers := corsHeaders ++ [(js "Content-Type", js "text/event-stream")];
             body := UpstreamBody (resp_body upstream) |}).
Proof.
  intros Hm Hb Hq Hne Hk Hkne Hc Hg.
  remember (serve req) as out eqn:E.
  unfold serve in E. rewrite (post_is_not_options _ Hm) in E.
  unfold answer in E. rewrite Hb in E. simpl get in E. rewrite Hq, Hk, Hc in E.
  assert (Ht : truthy (Some (JStr question)) = true).
  { simpl. destruct question; [contradiction|reflexivity]. }
  rewrite Ht in E. simpl negb in E. cbv iota in E.
  assert (Hke : text_eqb key [] = false) by (destruct key; [contradiction|reflexivity]).
  rewrite Hke in E.
  destruct (contexts_log (own_property (js "userId") ms)) as (ctx & Hctx).
  rewrite Hctx in E. unfold bind at 1 in E. cbv zeta in E.
  unfold bind at 1, emit at 1 in E. rewrite Hg in E.
  pose proof (selects_error_free (own_property (js "userId") ms)) as Hsel.
  split; [|split; [|split]].
  - intros H429. unfold resp_ok in E. rewrite H429 in E. subst out.
    split; reflexivity.
  - intros H402. unfold resp_ok in E. rewrite H402 in E. subst out.
    split; reflexivity.
  - intros Hok H429 H402. rewrite Hok in E. simpl negb in E. cbv iota in E.
    apply Z.eqb_neq in H429, H402. rewrite H429, H402 in E.
    split.
    + intros errorText Htext. rewrite Htext in E. subst out.
      split; [reflexivity|]. split; [reflexivity|].
      cbn [snd bind ret emit]. rewrite !filter_app, Hsel. reflexivity.
    + intros e Htext. rewrite Htext in E. subst out.
      split; [reflexivity|]. split; [reflexivity|].
      cbn [snd bind throw]. rewrite !filter_app, Hsel. reflexivity.
  - intros Hok. rewrite Hok in E. subst out. reflexivity.
Qed.

(* =================================================================== *)
(** ** The page: what the decoder and handleSend leave in the log        *)
(* =================================================================== *)

Lemma show_streaming_effects (full : text) (p : page) :
  effects (show_streaming b full p) = effects p.
Proof.
  unfold show_streaming. destruct (rev (messages p)) as [|last prev]; [reflexivity|].
  destruct (is_assistant _ && _); reflexivity.
Qed.

Lemma lines_loop_effects (fuel : nat) (d : decoding) :
  effects (screen (lines_loop fuel d)) = effects (screen d).
Proof.
  revert d. induction fuel as [|fuel IH]; intros d; [reflexivity|].
  destruct (indexOf1 LF (textBuffer d)) as [n|] eqn:E.
  - rewrite (lines_loop_step _ _ E). cbv zeta.
    destruct (classify _) as [| |[c|]|]; try reflexivity; rewrite IH; simpl;
      auto using show_streaming_effects.
  - rewrite lines_loop_idle by assumption. reflexivity.
Qed.

Lemma read_loop_effects (values : list text) (d : decoding) :
  effects (screen (read_loop values d)) = effects (screen d).
Proof.
  revert d. induction values as [|v vs IH]; intros d; [reflexivity|].
  simpl. unfold read_loop in IH. rewrite IH. unfold on_chunk.
  rewrite lines_loop_effects. reflexivity.
Qed.

(** [streamChat] logs its request and nothing else. *)
Lemma streamChat_effects (userId : option text) (question : text) (p : page) :
  effects (fst (streamChat userId question p))
  = effects p ++ [Fetch question userId].
Proof.
  unfold streamChat.
  destruct (fetch b question userId) as [e|resp]; [reflexivity|].
  destruct (resp_status resp =? 429)%Z; [reflexivity|].
  destruct (resp_status resp =? 402)%Z; [reflexivity|].
  destruct (resp_ok resp); [|reflexivity].
  destruct (resp_body resp) as [s|]; [|reflexivity].
  unfold decode_stream.
  destruct (read_failure s); simpl; apply read_loop_effects.
Qed.

Lemma handleSend_unfold (user text_arg : option text) (p : page) :
  handleSend user text_arg p =
    let q := messageText text_arg p in
    if text_eqb q [] then p
    else
      let (p1, outcome) := streamChat user q (sending q p) in
      setIsLoading false
        match outcome with
        | Returns response =>
            match user with
            | Some user_id =>
                if text_eqb response [] then p1
                else persist user_id q response p1
            | None => p1
            end
        | Throws error =>
            let p2 := perform (ConsoleError error) p1 in
            let p3 := perform (Toast (js "Error")
                                (match error with
                                 | ErrorObject message => message
                                 | OtherValue => js "Failed to get AI response"
                                 end)) p2 in
            draw (setMessages (fun prev => prev ++
                    [new_message b (draws p3) assistant_role apology]) p3)
        end.
Proof. reflexivity. Qed.

(** C9. [handleSend()] with nothing but white space in the input box
    does nothing: the page is as it was, so no message is appended, no
    request is sent and the loading flag is not set. *)
Theorem handleSend_blank_input_is_noop (user : option text) (p : page) :
  trim (input p) = [] ->
  handleSend user None p = p.
Proof.
  intros H. rewrite handleSend_unfold. cbv zeta.
  unfold messageText. rewrite H. reflexivity.
Qed.

(** C8. In an anonymous session, or when the stream yields an empty
    answer, [handleSend] inserts nothing into the database. *)
Theorem no_insert_without_user_or_answer
    (user text_arg : option text) (p : page) :
  user = None
  \/ snd (streamChat user (messageText text_arg p)
            (sending (messageText text_arg p) p)) = Returns [] ->
  inserts (handleSend user text_arg p) = inserts p.
Proof.
  intros H. rewrite handleSend_unfold. cbv zeta.
  destruct (text_eqb (messageText text_arg p) []); [reflexivity|].
  pose proof (streamChat_effects user (messageText text_arg p)
                (sending (messageText text_arg p) p)) as He.
  destruct (streamChat user _ _) as [p1 outcome]. simpl in He, H.
  assert (Hp1 : inserts p1 = inserts p).
  { unfold inserts at 1. rewrite He, filter_app. simpl. apply app_nil_r. }
  destruct outcome as [response|error].
  - destruct user as [uid|]; [|exact Hp1].
    destruct H as [H|H]; [discriminate|].
    injection H as ->. exact Hp1.
  - unfold inserts. simpl. rewrite <- !app_assoc, filter_app. simpl.
    rewrite app_nil_r. exact Hp1.
Qed.

(* =================================================================== *)
(** ** The decoder                                                       *)
(* =================================================================== *)

(** C1 (amended). When the relay answers with a success and no chunk
    arrives after the one that completes the terminator, [streamChat]
    returns exactly the concatenation, in arrival order, of the delta
    contents of the data lines that come before the first line that is
    the terminator or fails to parse (or before the end of the stream),
    however the chunks cut the lines. *)
Theorem streamChat_concatenates_deltas
    (userId : option text) (question : text) (p : page)
    (code : Z) (values : list text) :
  fetch b question userId
  = FetchResolved {| resp_status := code;
                     resp_body := Some {| chunks := values;
                                          read_failure := None |} |} ->
  (200 <= code <= 299)%Z ->
  done_ends_stream values = true ->
  snd (streamChat userId question p) = Returns (assembled values).
Proof.
  intros Hf Hc Hd. unfold streamChat. rewrite Hf. simpl resp_status.
  assert (H429 : (code =? 429)%Z = false) by (apply Z.eqb_neq; lia).
  assert (H402 : (code =? 402)%Z = false) by (apply Z.eqb_neq; lia).
  rewrite H429, H402.
  assert (Hok : resp_ok {| resp_status := code;
                           resp_body := Some {| chunks := values;
                                                read_failure := None |} |} = true).
  { unfold resp_ok. simpl. apply andb_true_intro. split; apply Z.leb_le; lia. }
  rewrite Hok. simpl. f_equal. apply read_loop_assembles; assumption.
Qed.

(** The decoder on a buffer that starts with a complete line which fails
    to parse: every read finds that line first, strips its carriage
    return if it has one, fails on it and puts it back; what is read
    piles up behind it. *)
Lemma retry_read_loop (values : list text) :
  forall (line rest full : text) (p : page),
    indexOf1 LF line = None ->
    inspect line = Unparsed ->
    read_loop values {| textBuffer := line ++ [LF] ++ rest;
                        fullResponse := full; screen := p |}
    = {| textBuffer := Nat.iter (length values) strip_cr line ++ [LF] ++ rest
                       ++ concat values;
         fullResponse := full; screen := p |}.
Proof.
  induction values as [|v vs IH]; intros line rest full p Hn Hc.
  - simpl. rewrite app_nil_r. reflexivity.
  - change (read_loop (v :: vs)
              {| textBuffer := line ++ [LF] ++ rest;
                 fullResponse := full; screen := p |})
      with (read_loop vs
              (on_chunk {| textBuffer := line ++ [LF] ++ rest;
                           fullResponse := full; screen := p |} v)).
    assert (Hstep : on_chunk {| textBuffer := line ++ [LF] ++ rest;
                                fullResponse := full; screen := p |} v
                    = {| textBuffer := strip_cr line ++ [LF] ++ (rest ++ v);
                         fullResponse := full; screen := p |}).
    { unfold on_chunk. cbn [textBuffer fullResponse screen].
      set (d0 := {| textBuffer := (line ++ [LF] ++ rest) ++ v;
                    fullResponse := full; screen := p |}).
      assert (Hb0 : textBuffer d0 = line ++ LF :: (rest ++ v)).
      { simpl. rewrite <- app_assoc. reflexivity. }
      destruct (@indexOf1_found line (rest ++ v) Hn) as (E & Hline & Hrest).
      rewrite <- Hb0 in E, Hline, Hrest.
      rewrite (lines_loop_step _ _ E). cbv zeta. rewrite Hline, Hrest.
      unfold classify. rewrite (inspect_strip_cr _ Hc). reflexivity. }
    rewrite Hstep.
    rewrite (IH (strip_cr line) (rest ++ v) full p
               (strip_cr_no_newline _ Hn) (inspect_strip_cr _ Hc)).
    cbn [length concat]. rewrite Nat.iter_succ_r, <- !app_assoc. reflexivity.
Qed.

(** C4 (amended). A data line whose remainder is not the sentinel and
    fails to parse as JSON ends the inner loop without an error: nothing
    is appended to the answer and the line, without its carriage return,
    goes back to the front of the buffer with its line feed.  Every later
    read retries that same line first (less one more carriage return, if
    it has one), fails on it again and leaves what it has read behind it
    in the buffer; so a stream that has come to this point returns,
    without an error, the answer assembled before the line, whatever
    follows. *)
Theorem malformed_line_is_pushed_back
    (fuel : nat) (d : decoding) (n : nat) :
  indexOf1 LF (textBuffer d) = Some n ->
  let line := strip_cr (slice_to n (textBuffer d)) in
  let rest := slice_from (n + 1) (textBuffer d) in
  let jsonStr := trim (slice_from 6 line) in
  startsWith (js "data: ") line = true ->
  text_eqb jsonStr (js "[DONE]") = false ->
  JSON_parse jsonStr = None ->
  lines_loop (S fuel) d
  = {| textBuffer := line ++ [LF] ++ rest;
       fullResponse := fullResponse d; screen := screen d |}
  /\ (forall values : list text,
        read_loop values (lines_loop (S fuel) d)
        = {| textBuffer := Nat.iter (length values) strip_cr line ++ [LF]
                           ++ rest ++ concat values;
             fullResponse := fullResponse d; screen := screen d |})
  /\ (forall (values0 values : list text) (p : page),
        read_loop values0 (start_decoding p) = lines_loop (S fuel) d ->
        decode_stream {| chunks := values0 ++ values; read_failure := None |} p
        = (screen d, Returns (fullResponse d))).
Proof.
  intros E line rest jsonStr Hdata Hdone Hparse.
  assert (Hline : indexOf1 LF line = None).
  { apply strip_cr_no_newline, indexOf1_firstn, E. }
  assert (Hc : inspect line = Unparsed).
  { unfold inspect. rewrite (data_line_is_read _ Hdata), Hdata.
    simpl negb. cbv iota zeta. fold jsonStr. rewrite Hdone.
    unfold try_delta. rewrite Hparse. reflexivity. }
  assert (Hstep : lines_loop (S fuel) d
                  = {| textBuffer := line ++ [LF] ++ rest;
                       fullResponse := fullResponse d; screen := screen d |}).
  { rewrite (lines_loop_step _ _ E). cbv zeta. unfold classify.
    fold line. rewrite Hc. reflexivity. }
  assert (Hretry : forall values : list text,
            read_loop values (lines_loop (S fuel) d)
            = {| textBuffer := Nat.iter (length values) strip_cr line ++ [LF]
                               ++ rest ++ concat values;
                 fullResponse := fullResponse d; screen := screen d |}).
  { intros values. rewrite Hstep. apply retry_read_loop; assumption. }
  split; [exact Hstep|]. split; [exact Hretry|].
  intros values0 values p H0. unfold decode_stream.
  cbn [chunks read_failure]. unfold read_loop in *.
  rewrite fold_left_app, H0, Hretry. reflexivity.
Qed.

(* =================================================================== *)
(** ** The fenced block                                                  *)
(* =================================================================== *)

Lemma ws_then_close_gap (gap post : text) :
  all_ws gap = true -> ws_then_close (gap ++ fence_close ++ post) = true.
Proof.
  induction gap as [|c gap IH]; [reflexivity|].
  simpl. intros H. apply andb_prop in H as [Hc Hg].
  rewrite Hc. simpl in IH. rewrite (IH Hg). reflexivity.
Qed.

Lemma ends_plain_cons (c : N) (s : text) :
  s <> [] -> ends_plain (c :: s) = ends_plain s.
Proof.
  intros Hs. unfold ends_plain. simpl.
  destruct (rev s) as [|x t] eqn:E; [|reflexivity].
  apply (f_equal (@rev N)) in E. rewrite rev_involutive in E. contradiction.
Qed.

(** The closing fence does not start at the head of a block that has
    none inside and ends plainly, whatever follows the block. *)
Lemma close_not_at_head (blk rest : text) :
  blk <> [] -> no_close_in blk = true -> ends_plain blk = true ->
  startsWith fence_close (blk ++ rest) = false.
Proof.
  intros Hne Hn He. destruct blk as [|c1 [|c2 [|c3 t]]]; [contradiction| | |].
  - unfold ends_plain in He. simpl in He. apply andb_prop in He as [_ He].
    apply negb_true_iff in He. cbn [app startsWith fence_close].
    rewrite N.eqb_sym, He. reflexivity.
  - unfold ends_plain in He. simpl in He. apply andb_prop in He as [_ He].
    apply negb_true_iff in He. cbn [app startsWith fence_close].
    rewrite (N.eqb_sym 96 c2), He. destruct (96 =? c1)%N; reflexivity.
  - cbn [no_close_in] in Hn. apply andb_prop in Hn as [Hn _].
    apply negb_true_iff in Hn. cbn [app startsWith fence_close] in *.
    exact Hn.
Qed.

(** Inside the block the tail of the pattern cannot match. *)
Lemma ws_then_close_solid (blk rest : text) :
  blk <> [] -> no_close_in blk = true -> ends_plain blk = true ->
  ws_then_close (blk ++ rest) = false.
Proof.
  induction blk as [|c t IH]; [contradiction|]. intros _ Hb He.
  pose proof (@close_not_at_head (c :: t) rest) as Hhead.
  cbn [app] in Hhead. cbn [app ws_then_close].
  rewrite Hhead by (assumption || discriminate).
  destruct t as [|c' t'].
  - unfold ends_plain in He. simpl in He. apply andb_prop in He as [He _].
    apply negb_true_iff in He. rewrite He. reflexivity.
  - rewrite ends_plain_cons in He by discriminate.
    cbn [no_close_in] in Hb. apply andb_prop in Hb as [_ Hb].
    rewrite IH by (assumption || discriminate).
    destruct (is_ws c); reflexivity.
Qed.

Lemma lazy_group_eq (s : text) :
  lazy_group s =
    if ws_then_close s then Some []
    else match s with
         | c :: s' => option_map (cons c) (lazy_group s')
         | [] => None
         end.
Proof. destruct s; reflexivity. Qed.

Lemma lazy_group_block (blk gap post : text) :
  no_close_in blk = true -> blk = [] \/ ends_plain blk = true ->
  all_ws gap = true ->
  lazy_group (blk ++ gap ++ fence_close ++ post) = Some blk.
Proof.
  intros Hb He Hg. induction blk as [|c t IH].
  - rewrite lazy_group_eq. cbn [app]. rewrite (ws_then_close_gap _ _ Hg).
    reflexivity.
  - destruct He as [He|He]; [discriminate|].
    rewrite lazy_group_eq.
    rewrite ws_then_close_solid by (assumption || discriminate).
    cbn [no_close_in] in Hb. apply andb_prop in Hb as [_ Ht].
    cbn [app]. rewrite IH; [reflexivity|assumption|].
    destruct t; [left; reflexivity|right].
    rewrite ends_plain_cons in He by discriminate. exact He.
Qed.

Lemma after_open_block (gap1 blk gap2 post : text) :
  all_ws gap1 = true -> all_ws gap2 = true ->
  starts_solid blk = true -> ends_plain blk = true -> no_close_in blk = true ->
  after_open (gap1 ++ blk ++ gap2 ++ fence_close ++ post) = Some blk.
Proof.
  intros H1 H2 Hs He Hb. induction gap1 as [|c gap1 IH].
  - destruct blk as [|c t]; [discriminate|].
    simpl in Hs. apply negb_true_iff in Hs.
    cbn [app after_open]. rewrite Hs.
    apply (@lazy_group_block (c :: t)); auto.
  - simpl in H1. apply andb_prop in H1 as [Hc Hg].
    cbn [app after_open]. rewrite Hc, (IH Hg). reflexivity.
Qed.

Lemma fence_match_eq (s : text) :
  fence_match s =
    match (if startsWith fence_open s
           then after_open (skipn (length fence_open) s) else None) with
    | Some g => Some g
    | None => match s with
              | _ :: s' => fence_match s'
              | [] => None
              end
    end.
Proof. destruct s; reflexivity. Qed.

(** The regular expression captures the first fenced block. *)
Lemma fence_match_first_block (pre tail g : text) :
  no_fence_before (length pre) (pre ++ fence_open ++ tail) = true ->
  after_open tail = Some g ->
  fence_match (pre ++ fence_open ++ tail) = Some g.
Proof.
  intros Hn Ha. induction pre as [|c pre IH].
  - rewrite fence_match_eq.
    change (startsWith fence_open ([] ++ fence_open ++ tail)) with true.
    cbv iota. change (skipn _ _) with tail. rewrite Ha. reflexivity.
  - cbn [length no_fence_before app] in Hn. apply andb_prop in Hn as [H0 Hn].
    apply negb_true_iff in H0.
    rewrite fence_match_eq. cbn [app]. rewrite H0. apply IH, Hn.
Qed.

(** Without an opening fence the regular expression does not match. *)
Lemma fence_match_none (s : text) :
  no_fence_before (length s) s = true -> fence_match s = None.
Proof.
  induction s as [|c s IH]; [reflexivity|].
  cbn [length no_fence_before]. intros H. apply andb_prop in H as [H0 H].
  apply negb_true_iff in H0. rewrite fence_match_eq, H0. apply IH, H.
Qed.

Section Rounding.

Local Open Scope Z_scope.

Lemma digits2_pos_ge (p : positive) :
  2 ^ (Zpos (digits2_pos p) - 1) <= Zpos p.
Proof.
  induction p as [p IH|p IH|]; cbn [digits2_pos]; [| |simpl; lia];
    rewrite Pos2Z.inj_succ;
    replace (Z.succ (Zpos (digits2_pos p)) - 1)
      with (Z.succ (Zpos (digits2_pos p) - 1)) by lia;
    rewrite Z.pow_succ_r by lia; lia.
Qed.

Lemma digits2_pos_lt (p : positive) : Zpos p < 2 ^ Zpos (digits2_pos p).
Proof.
  induction p as [p IH|p IH|]; cbn [digits2_pos]; [| |simpl; lia];
    rewrite Pos2Z.inj_succ, Z.pow_succ_r by lia; lia.
Qed.

Lemma digits2_pos_le (p : positive) (d : Z) :
  Zpos p < 2 ^ d -> Zpos (digits2_pos p) <= d.
Proof.
  intros H. destruct (Z_le_gt_dec (Zpos (digits2_pos p)) d) as [|Hgt]; [assumption|].
  pose proof (digits2_pos_ge p) as Hge.
  assert (0 <= d).
  { destruct (Z_le_gt_dec 0 d); [assumption|].
    rewrite Z.pow_neg_r in H by lia. lia. }
  assert (2 ^ d <= 2 ^ (Zpos (digits2_pos p) - 1))
    by (apply Z.pow_le_mono_r; lia).
  lia.
Qed.

(** The exponent of the result, for a significand below [2 ^ (5 - e)]. *)
Lemma fexp_below_32 (m e : Z) :
  0 <= m < 2 ^ (5 - e) -> e <= 5 -> fexp prec emax (Zdigits2 m + e) <= -48.
Proof.
  intros [H0 H] He. unfold fexp, emin, prec, emax.
  destruct m as [|p|p]; [simpl; lia| |lia].
  cbn [Zdigits2]. pose proof (@digits2_pos_le p _ H). lia.
Qed.

Lemma shr_1_kept (M j : Z) (x : shr_record) :
  0 <= j -> kept M j x -> kept M (j + 1) (shr_1 x).
Proof.
  intros Hj [H0 H]. unfold kept. rewrite Z.pow_add_r, Z.pow_1_r by lia.
  assert (0 < 2 ^ j) by (apply Z.pow_pos_nonneg; lia).
  destruct x as [m r s]. cbn [shr_m shr_r] in *.
  destruct m as [|[p|p|]|p]; cbn [shr_1 shr_m shr_r Z.b2z]; try lia;
    destruct r; cbn [Z.b2z] in *; nia.
Qed.

Lemma iter_pos_kept (M : Z) (p : positive) :
  forall (j : Z) (x : shr_record),
    0 <= j -> kept M j x -> kept M (j + Zpos p) (iter_pos shr_1 p x).
Proof.
  induction p as [p IH|p IH|]; intros j x Hj H; cbn [iter_pos].
  - replace (j + Zpos p~1) with (j + 1 + Zpos p + Zpos p) by lia.
    apply IH; [lia|]. apply IH; [lia|]. apply shr_1_kept; assumption.
  - replace (j + Zpos p~0) with (j + Zpos p + Zpos p) by lia.
    apply IH; [lia|]. apply IH; assumption.
  - apply shr_1_kept; assumption.
Qed.

Lemma shr_kept (M e n : Z) :
  0 <= M ->
  let out := shr (shr_record_of_loc M loc_Exact) e n in
  (n <= 0 /\ out = ({| shr_m := M; shr_r := false; shr_s := false |}, e))
  \/ (0 < n /\ snd out = e + n /\ kept M n (fst out)).
Proof.
  intros HM. destruct n as [|p|p]; cbn [shr shr_record_of_loc].
  - left. split; [lia|reflexivity].
  - right. split; [lia|]. split; [reflexivity|]. cbn [fst].
    apply (@iter_pos_kept M p 0); [lia|].
    split; cbn [shr_m shr_r Z.b2z]; lia.
  - left. split; [lia|reflexivity].
Qed.

Lemma round_nearest_even_le (x : shr_record) :
  round_nearest_even (shr_m x) (loc_of_shr_record x)
  <= shr_m x + Z.b2z (shr_r x)
  /\ shr_m x <= round_nearest_even (shr_m x) (loc_of_shr_record x).
Proof.
  destruct x as [m [|] [|]]; cbn; try destruct (Z.even m); lia.
Qed.

Lemma below_30_32 (m e : Z) : below_30 m e -> 0 <= m < 2 ^ (5 - e).
Proof.
  intros [He [H0 H]]. split; [assumption|].
  replace (5 - e) with (5 + - e) by lia. rewrite Z.pow_add_r by lia.
  assert (0 < 2 ^ (- e)) by (apply Z.pow_pos_nonneg; lia).
  change (2 ^ 5) with 32. lia.
Qed.

(** Renormalising keeps the number below 30. *)
Lemma shr_fexp_below_30 (m e : Z) :
  below_30 m e ->
  below_30 (shr_m (fst (shr_fexp prec emax m e loc_Exact)))
           (snd (shr_fexp prec emax m e loc_Exact)).
Proof.
  intros H. pose proof (@below_30_32 _ _ H) as H32.
  destruct H as [He [H0 H]]. unfold shr_fexp.
  pose proof (@fexp_below_32 m e H32 ltac:(lia)) as Hf.
  destruct (@shr_kept m e (fexp prec emax (Zdigits2 m + e) - e) H0)
    as [[_ ->]|(Hn & -> & [Hq Hk])]; [split; cbn [fst snd shr_m]; lia|].
  set (n := fexp prec emax (Zdigits2 m + e) - e) in *.
  set (q := shr_m (fst (shr (shr_record_of_loc m loc_Exact) e n))) in *.
  split; [lia|]. split; [assumption|].
  assert (Hp : 2 ^ (- e) = 2 ^ (- (e + n)) * 2 ^ n).
  { rewrite <- Z.pow_add_r by lia. f_equal. lia. }
  assert (0 < 2 ^ n) by (apply Z.pow_pos_nonneg; lia).
  assert (0 < 2 ^ (- (e + n))) by (apply Z.pow_pos_nonneg; lia).
  assert (0 <= Z.b2z (shr_r (fst (shr (shr_record_of_loc m loc_Exact) e n))))
    by (destruct (shr_r _); cbn; lia).
  nia.
Qed.

(** Rounding the product of a number below one and 30. *)
Lemma round_product_below_30 (m e : Z) :
  0 < m < 2 ^ 53 -> e <= -53 ->
  let M := m * 8444249301319680 in
  let E := e + -48 in
  let out := shr_fexp prec emax M E loc_Exact in
  below_30 (round_nearest_even (shr_m (fst out)) (loc_of_shr_record (fst out)))
           (snd out).
Proof.
  intros [Hm0 Hm] He M E out.
  assert (Ha : exists a, 1 <= a /\ 2 ^ (- e) = 2 ^ 53 * a).
  { exists (2 ^ (- e - 53)). split.
    - assert (0 < 2 ^ (- e - 53)) by (apply Z.pow_pos_nonneg; lia). lia.
    - rewrite <- Z.pow_add_r by lia. f_equal. lia. }
  destruct Ha as (a & Ha1 & Ha).
  assert (HE : 2 ^ (- E) = 2 ^ 48 * 2 ^ (- e)).
  { unfold E. rewrite <- Z.pow_add_r by lia. f_equal. lia. }
  assert (HM : 0 <= M < 2 ^ (5 - E)).
  { unfold M. split; [lia|].
    replace (5 - E) with (5 + - E) by lia. rewrite Z.pow_add_r by (unfold E; lia).
    rewrite HE, Ha. change (2 ^ 5) with 32. change (2 ^ 48) with 281474976710656.
    change (2 ^ 53) with 9007199254740992 in *. nia. }
  pose proof (@fexp_below_32 M E HM ltac:(unfold E; lia)) as Hf.
  pose proof (round_nearest_even_le (fst out)) as [Hup Hdown].
  unfold out, shr_fexp in *.
  set (n := fexp prec emax (Zdigits2 M + E) - E) in *.
  destruct (@shr_kept M E n (proj1 HM)) as [[Hn Hout]|(Hn & He' & [Hq Hk])].
  - rewrite Hout in *. cbn [fst snd shr_m shr_r loc_of_shr_record
                            round_nearest_even Z.b2z] in *.
    split; [unfold E; lia|]. split; [lia|].
    rewrite HE, Ha. unfold M.
    change (2 ^ 48) with 281474976710656.
    change (2 ^ 53) with 9007199254740992 in *. nia.
  - rewrite He'. split; [lia|]. split; [lia|].
    set (x := fst (shr (shr_record_of_loc M loc_Exact) E n)) in *.
    set (m1 := round_nearest_even (shr_m x) (loc_of_shr_record x)) in *.
    assert (Hp : 2 ^ (- E) = 2 ^ (- (E + n)) * 2 ^ n).
    { rewrite <- Z.pow_add_r by lia. f_equal. lia. }
    assert (Hn' : 2 ^ n <= 2 ^ (- e)).
    { apply Z.pow_le_mono_r; [lia|]. unfold E in *. lia. }
    assert (0 < 2 ^ n) by (apply Z.pow_pos_nonneg; lia).
    assert (0 < 2 ^ (- (E + n))) by (apply Z.pow_pos_nonneg; lia).
    assert (Hb : 0 <= Z.b2z (shr_r x) <= 1) by (destruct (shr_r x); cbn; lia).
    assert (H1 : 2 * m1 * 2 ^ n <= 2 * M + 2 ^ n) by nia.
    assert (H2 : 2 * M + 2 ^ n < 60 * 2 ^ (- E)).
    { rewrite HE. rewrite Ha in *. unfold M.
      change (2 ^ 48) with 281474976710656.
      change (2 ^ 53) with 9007199254740992 in *. nia. }
    rewrite Hp in H2. nia.
Qed.

Lemma random_number_bounds (s : bool) (m : positive) (e : Z) :
  random_number (S754_finite s m e) = true ->
  s = false /\ Zpos m < 2 ^ 53 /\ e <= -53.
Proof.
  unfold random_number, valid_binary, bounded, canonical_mantissa.
  intros H. apply andb_prop in H as [Hv H]. apply andb_prop in H as [Hs Hlt].
  apply andb_prop in Hv as [Hc _]. apply Z.eqb_eq in Hc.
  destruct s; [discriminate|]. split; [reflexivity|].
  unfold fexp, emin, prec, emax in Hc.
  pose proof (digits2_pos_lt m) as Hd.
  assert (Hm : Zpos m < 2 ^ 53).
  { apply Z.lt_le_trans with (2 ^ Zpos (digits2_pos m)); [assumption|].
    apply Z.pow_le_mono_r; lia. }
  split; [assumption|].
  unfold SFltb, SFcompare, one in Hlt.
  destruct (Z.compare_spec e (-52)) as [He|He|He]; [|lia|discriminate].
  subst e.
  assert (Hlow : Zpos m < 2 ^ 52).
  { change (2 ^ 52) with (Zpos 4503599627370496).
    destruct (Pos.compare_cont Eq m 4503599627370496) eqn:Ec; try discriminate.
    exact Ec. }
  clear Hlt.
  pose proof (@digits2_pos_le m 52 Hlow). lia.
Qed.

(** The product of a random number and 30 is a number of [0, 30). *)
Lemma random_product (r : spec_float) :
  random_number r = true ->
  SFmul prec emax r thirty = S754_zero false
  \/ exists m e, SFmul prec emax r thirty = S754_finite false m e
                 /\ below_30 (Zpos m) e.
Proof.
  intros H. destruct r as [s| | |s m e]; try discriminate.
  - left. unfold random_number in H. destruct s; [discriminate|reflexivity].
  - destruct (@random_number_bounds _ _ _ H) as (-> & Hm & He).
    cbn [SFmul thirty xorb]. unfold binary_round_aux.
    rewrite Pos2Z.inj_mul.
    pose proof (@round_product_below_30 (Zpos m) e ltac:(lia) He) as H1.
    cbv zeta in H1.
    destruct (shr_fexp prec emax (Zpos m * 8444249301319680) (e + -48) loc_Exact)
      as [x e1]. cbn [fst snd] in H1.
    pose proof (@shr_fexp_below_30 _ _ H1) as H2.
    destruct (shr_fexp prec emax
                (round_nearest_even (shr_m x) (loc_of_shr_record x)) e1 loc_Exact)
      as [y e2]. cbn [fst snd] in H2.
    destruct H2 as [He2 Hy].
    destruct (shr_m y) as [|p|p]; [left; reflexivity| |lia].
    right. exists p, e2.
    replace (e2 <=? emax - prec) with true
      by (symmetry; apply Z.leb_le; unfold emax, prec; lia).
    split; [reflexivity|]. split; assumption.
Qed.

Lemma probability_range (r : spec_float) :
  random_number r = true -> 70 <= probability r <= 99.
Proof.
  intros H. unfold probability.
  destruct (@random_product r H) as [-> | (m & e & -> & He & H0 & Hm)];
    [cbn; lia|].
  cbn [Math_floor]. rewrite Z.shiftl_div_pow2 by lia.
  assert (0 < 2 ^ (- e)) by (apply Z.pow_pos_nonneg; lia).
  assert (0 <= Zpos m / 2 ^ (- e)) by (apply Z.div_pos; lia).
  assert (Zpos m / 2 ^ (- e) < 30) by (apply Z.div_lt_upper_bound; lia).
  lia.
Qed.

End Rounding.

(* =================================================================== *)
(** ** Persistence                                                       *)
(* =================================================================== *)

(** What [handleSend] does once [streamChat] has returned a non-empty
    answer to a signed-in user. *)
Lemma handleSend_persists
    (uid : text) (text_arg : option text) (p p1 : page) (response : text) :
  messageText text_arg p <> [] ->
  streamChat (Some uid) (messageText text_arg p)
    (sending (messageText text_arg p) p) = (p1, Returns response) ->
  response <> [] ->
  inserts p1 = inserts p
  /\ handleSend (Some uid) text_arg p
     = setIsLoading false (persist uid (messageText text_arg p) response p1).
Proof.
  intros Hq Hs Hr. split.
  - pose proof (streamChat_effects (Some uid) (messageText text_arg p)
                  (sending (messageText text_arg p) p)) as He.
    rewrite Hs in He. simpl in He.
    unfold inserts at 1. rewrite He, filter_app. simpl. apply app_nil_r.
  - rewrite handleSend_unfold. cbv zeta.
    destruct (text_eqb (messageText text_arg p) []) eqn:E.
    + apply text_eqb_eq in E. contradiction.
    + rewrite Hs. destruct (text_eqb response []) eqn:E'; [|reflexivity].
      apply text_eqb_eq in E'. contradiction.
Qed.

(** C7 (amended). For a signed-in user and a non-empty answer in which
    the pattern finds no fenced block, or finds one that does not parse
    as JSON, no topic is inserted and the raw answer is inserted once,
    with the empty summary. *)
Theorem answer_without_block_is_persisted
    (uid : text) (text_arg : option text) (p p1 : page) (response : text) :
  messageText text_arg p <> [] ->
  streamChat (Some uid) (messageText text_arg p)
    (sending (messageText text_arg p) p) = (p1, Returns response) ->
  response <> [] ->
  fence_match response = None
  \/ (exists block, fence_match response = Some block
                    /\ JSON_parse block = None) ->
  inserts (handleSend (Some uid) text_arg p)
  = inserts p ++ [InsertAnswer uid (messageText text_arg p) response
                    (JStr []) General].
Proof.
  intros Hq Hs Hr Hb.
  destruct (@handleSend_persists uid text_arg p p1 response Hq Hs Hr) as [Hp1 ->].
  unfold persist.
  destruct Hb as [-> | (block & -> & Hparse)].
  - unfold inserts at 1. simpl. rewrite filter_app. simpl.
    fold (inserts p1). rewrite Hp1. reflexivity.
  - unfold extract. rewrite Hparse.
    unfold inserts at 1. simpl. rewrite <- app_assoc, filter_app. simpl.
    fold (inserts p1). rewrite Hp1. reflexivity.
Qed.

(** C6 (amended). For a signed-in user and an answer whose first fenced
    json block (white space around it apart) is a JSON text without a
    closing fence inside that parses to an object with
    [important_topics] [["A","B"]] and [summary] ["S"]: exactly two topic
    records are inserted, for A and for B in that order, each with the
    likelihood computed from its own random draw, a value between 70 and
    99, and then exactly one answer record, with summary S.  A random
    draw is any binary64 value of positive sign below one. *)
Theorem first_fenced_block_is_persisted
    (uid : text) (text_arg : option text) (p p1 : page)
    (response pre gap1 block gap2 post : text)
    (parsed : json) (A B summary : text) :
  (forall n, random_number (Math_random b n) = true) ->
  messageText text_arg p <> [] ->
  streamChat (Some uid) (messageText text_arg p)
    (sending (messageText text_arg p) p) = (p1, Returns response) ->
  response = pre ++ fence_open ++ gap1 ++ block ++ gap2 ++ fence_close ++ post ->
  no_fence_before (length pre) response = true ->
  all_ws gap1 = true -> all_ws gap2 = true ->
  starts_solid block = true -> ends_plain block = true ->
  no_close_in block = true ->
  JSON_parse block = Some parsed ->
  get (js "important_topics") parsed = Some (JArr [JStr A; JStr B]) ->
  get (js "summary") parsed = Some (JStr summary) ->
  exists pA pB : Z,
    inserts (handleSend (Some uid) text_arg p)
    = inserts p ++ [InsertTopic uid General (JStr A) pA;
                    InsertTopic uid General (JStr B) pB;
                    InsertAnswer uid (messageText text_arg p) response
                      (JStr summary) General]
    /\ pA = probability (Math_random b (draws p1))
    /\ pB = probability (Math_random b (S (draws p1)))
    /\ (70 <= pA <= 99)%Z /\ (70 <= pB <= 99)%Z.
Proof.
  intros Hrand Hq Hs Hshape Hfirst Hg1 Hg2 Hss Hes Hnb Hparse Htopics Hsummary.
  assert (Hr : response <> []).
  { rewrite Hshape. destruct pre; discriminate. }
  destruct (@handleSend_persists uid text_arg p p1 response Hq Hs Hr) as [Hp1 ->].
  assert (Hm : fence_match response = Some block).
  { rewrite Hshape in *. apply fence_match_first_block; [assumption|].
    apply after_open_block; assumption. }
  unfold persist. rewrite Hm. unfold extract. rewrite Hparse.
  destruct parsed as [| | | | |ms]; try discriminate.
  rewrite Hsummary, Htopics.
  assert (Hsum : (if truthy (Some (JStr summary)) then JStr summary else JStr [])
                = JStr summary).
  { destruct summary; reflexivity. }
  rewrite Hsum.
  exists (probability (Math_random b (draws p1))),
         (probability (Math_random b (S (draws p1)))).
  split; [|split; [reflexivity|split; [reflexivity|
    split; apply probability_range, Hrand]]].
  unfold inserts at 1. simpl. rewrite <- !app_assoc, filter_app. simpl.
  fold (inserts p1). rewrite Hp1. reflexivity.
Qed.

(* =================================================================== *)
(** ** Further properties of the decoder                                 *)
(* =================================================================== *)

Lemma read_loop_extends (values : list text) (d : decoding) :
  exists t, fullResponse (read_loop values d) = fullResponse d ++ t.
Proof.
  revert d. induction values as [|v vs IH]; intros d.
  - exists []. simpl. symmetry. apply app_nil_r.
  - destruct (IH (on_chunk d v)) as [t Ht].
    unfold read_loop in *. simpl fold_left. rewrite Ht. unfold on_chunk.
    rewrite lines_loop_answer by (simpl; lia). simpl.
    eexists. rewrite <- app_assoc. reflexivity.
Qed.

(** X1. The answer only grows: whatever chunks follow, the answer after
    them starts with the answer before them. *)
Theorem answer_only_grows (values1 values2 : list text) (p : page) :
  exists before more,
    snd (decode_stream {| chunks := values1; read_failure := None |} p)
    = Returns before
    /\ snd (decode_stream {| chunks := values1 ++ values2;
                             read_failure := None |} p)
       = Returns (before ++ more).
Proof.
  unfold decode_stream. simpl. unfold read_loop. rewrite fold_left_app.
  destruct (read_loop_extends values2 (fold_left on_chunk values1 (start_decoding p)))
    as [t Ht].
  eexists _, t. unfold read_loop in Ht. rewrite Ht. split; reflexivity.
Qed.

Lemma indexOf1_app_none (x y : text) :
  indexOf1 LF x = None -> indexOf1 LF y = None -> indexOf1 LF (x ++ y) = None.
Proof.
  intros Hx Hy. induction x as [|c x IH]; simpl in *; [exact Hy|].
  destruct (N.eqb c LF); [discriminate|].
  destruct (indexOf1 LF x); [discriminate|]. rewrite IH; reflexivity.
Qed.

(** X2. There is no final flush: after chunks that complete no
    terminator, a last chunk without a line feed changes nothing in the
    answer, whatever it holds. *)
Theorem unfinished_line_is_dropped (values : list text) (tail : text) (p : page) :
  no_terminator (complete_lines (concat values)) = true ->
  indexOf1 LF tail = None ->
  snd (decode_stream {| chunks := values ++ [tail]; read_failure := None |} p)
  = snd (decode_stream {| chunks := values; read_failure := None |} p).
Proof.
  intros Ht Htail. unfold decode_stream. simpl. f_equal.
  unfold read_loop. rewrite fold_left_app. simpl fold_left.
  fold (read_loop values (start_decoding p)).
  destruct (@read_loop_answer values (start_decoding p)) as [_ Hcase];
    [reflexivity|exact Ht|].
  destruct Hcase as [[_ Hbuf]|[_ Hst]].
  - unfold on_chunk. rewrite lines_loop_idle; [reflexivity|].
    simpl. rewrite Hbuf. apply indexOf1_app_none; [|exact Htail].
    apply pending_no_newline.
  - apply (stalled_on_chunk tail Hst).
Qed.

(** X3. A line that fails to parse blocks the decoder for the rest of the
    stream: when the chunks so far hold such a line and no terminator,
    the answer is the deltas before that line, whatever chunks follow. *)
Theorem malformed_line_blocks_the_stream (values1 values2 : list text) (p : page) :
  no_terminator (complete_lines (concat values1)) = true ->
  runs_through (complete_lines (concat values1)) = false ->
  snd (decode_stream {| chunks := values1 ++ values2; read_failure := None |} p)
  = Returns (assembled values1).
Proof.
  intros Ht Hr. unfold decode_stream. simpl. f_equal.
  destruct (@read_loop_answer values1 (start_decoding p)) as [Hfull Hcase];
    [reflexivity|exact Ht|].
  simpl in Hfull, Hcase.
  destruct Hcase as [[Hrun _]|[_ Hst]]; [congruence|].
  destruct (stalled_read_loop values2 Hst) as [_ H].
  unfold read_loop in *. rewrite fold_left_app, H. exact Hfull.
Qed.

Lemma split_lines_line (l : text) :
  indexOf1 LF l = None -> split_lines (l ++ [LF]) = ([l], []).
Proof.
  induction l as [|c l IH]; simpl; [reflexivity|].
  destruct (N.eqb c LF) eqn:Ec; [discriminate|].
  destruct (indexOf1 LF l); [discriminate|]. intros _.
  rewrite IH by reflexivity. reflexivity.
Qed.

Lemma complete_lines_event_stream (ls : list text) :
  forallb (fun l => match indexOf1 LF l with None => true | Some _ => false end) ls
  = true ->
  split_lines (event_stream [LF] ls) = (ls, []).
Proof.
  unfold event_stream. induction ls as [|l ls IH]; simpl; [reflexivity|].
  intros H. apply andb_prop in H as [Hl Hls].
  destruct (indexOf1 LF l) eqn:El; [discriminate|].
  rewrite split_lines_app. unfold complete_lines, pending.
  rewrite (split_lines_line _ El). simpl. rewrite (IH Hls). reflexivity.
Qed.

Lemma endsWith1_last (c : N) (l : text) : endsWith1 c (l ++ [c]) = true.
Proof. unfold endsWith1. rewrite rev_app_distr. simpl. apply N.eqb_refl. Qed.

Lemma classify_crlf (l : text) :
  endsWith1 CR l = false -> classify (l ++ [CR]) = classify l.
Proof.
  intros H. unfold classify, strip_cr, slice_drop_last.
  rewrite endsWith1_last, removelast_last, H. reflexivity.
Qed.

Lemma deltas_until_stop_crlf (ls : list text) :
  forallb plain_line ls = true ->
  deltas_until_stop (List.map (fun l => l ++ [CR]) ls) = deltas_until_stop ls.
Proof.
  induction ls as [|l ls IH]; simpl; [reflexivity|].
  intros H. apply andb_prop in H as [Hl Hls].
  unfold plain_line in Hl. apply andb_prop in Hl as [_ Hcr].
  apply negb_true_iff in Hcr. rewrite (classify_crlf _ Hcr), (IH Hls).
  reflexivity.
Qed.

Lemma event_stream_crlf (ls : list text) :
  event_stream [CR; LF] ls
  = event_stream [LF] (List.map (fun l => l ++ [CR]) ls).
Proof.
  unfold event_stream. induction ls as [|l ls IH]; simpl; [reflexivity|].
  rewrite IH, <- !app_assoc. reflexivity.
Qed.

(** X4. Line endings do not matter: a stream whose lines end with a
    carriage return and a line feed gives the answer of the same lines
    ended with a line feed alone. *)
Theorem crlf_decodes_as_lf (ls : list text) (p : page) :
  forallb plain_line ls = true ->
  snd (decode_stream {| chunks := [event_stream [CR; LF] ls];
                        read_failure := None |} p)
  = snd (decode_stream {| chunks := [event_stream [LF] ls];
                          read_failure := None |} p).
Proof.
  intros H. unfold decode_stream. cbn [chunks read_failure snd]. f_equal.
  rewrite !read_loop_assembles by reflexivity.
  unfold assembled, complete_lines. simpl concat. rewrite !app_nil_r.
  rewrite event_stream_crlf.
  assert (Hlf : forallb (fun l => match indexOf1 LF l with
                                  | None => true | Some _ => false end) ls = true).
  { clear -H. induction ls as [|l ls IH]; simpl in *; [reflexivity|].
    apply andb_prop in H as [Hl Hls]. unfold plain_line in Hl.
    apply andb_prop in Hl as [Hl _]. rewrite Hl, (IH Hls). reflexivity. }
  assert (Hcrlf : forallb (fun l => match indexOf1 LF l with
                                    | None => true | Some _ => false end)
                    (List.map (fun l => l ++ [CR]) ls) = true).
  { clear -Hlf. induction ls as [|l ls IH]; simpl in *; [reflexivity|].
    apply andb_prop in Hlf as [Hl Hls].
    destruct (indexOf1 LF l) eqn:El; [discriminate|].
    rewrite (@indexOf1_app_none l [CR] El eq_refl), (IH Hls). reflexivity. }
  rewrite (complete_lines_event_stream _ Hlf),
          (complete_lines_event_stream _ Hcrlf).
  simpl. apply deltas_until_stop_crlf, H.
Qed.

Lemma plain_lines_no_lf (ls : list text) :
  forallb plain_line ls = true ->
  forallb (fun l => match indexOf1 LF l with
                    | None => true | Some _ => false end) ls = true.
Proof.
  induction ls as [|l ls IH]; simpl; [reflexivity|].
  intros H. apply andb_prop in H as [Hl Hls]. unfold plain_line in Hl.
  apply andb_prop in Hl as [Hl _]. rewrite Hl, (IH Hls). reflexivity.
Qed.

(** The answer of a stream that arrives as one chunk. *)
Lemma single_chunk_answer (ls : list text) (p : page) :
  forallb plain_line ls = true ->
  snd (decode_stream {| chunks := [event_stream [LF] ls];
                        read_failure := None |} p)
  = Returns (deltas_until_stop ls).
Proof.
  intros H. unfold decode_stream. cbn [chunks read_failure snd]. f_equal.
  rewrite read_loop_assembles by reflexivity.
  unfold assembled, complete_lines. simpl concat. rewrite app_nil_r.
  rewrite (complete_lines_event_stream _ (plain_lines_no_lf _ H)). reflexivity.
Qed.

Lemma deltas_until_stop_skip (ls1 ls2 : list text) (l : text) :
  classify l = Skipped ->
  deltas_until_stop (ls1 ++ l :: ls2) = deltas_until_stop (ls1 ++ ls2).
Proof.
  intros Hl. induction ls1 as [|x ls1 IH]; simpl; [rewrite Hl; reflexivity|].
  rewrite IH. reflexivity.
Qed.

(** X5. Comment lines, blank lines and lines without the data prefix do
    not count: with or without such a line among its lines, a chunk
    gives the same answer. *)
Theorem skipped_lines_do_not_count (ls1 ls2 : list text) (l : text) (p : page) :
  forallb plain_line (ls1 ++ l :: ls2) = true ->
  startsWith (js ":") l = true \/ trim l = []
  \/ startsWith (js "data: ") l = false ->
  snd (decode_stream {| chunks := [event_stream [LF] (ls1 ++ l :: ls2)];
                        read_failure := None |} p)
  = snd (decode_stream {| chunks := [event_stream [LF] (ls1 ++ ls2)];
                          read_failure := None |} p).
Proof.
  intros H Hl.
  assert (H' : forallb plain_line (ls1 ++ ls2) = true).
  { rewrite forallb_app in *. simpl in H.
    apply andb_prop in H as [H1 H2]. apply andb_prop in H2 as [_ H2].
    rewrite H1, H2. reflexivity. }
  assert (Hc : classify l = Skipped).
  { rewrite forallb_app in H. simpl in H.
    apply andb_prop in H as [_ H]. apply andb_prop in H as [H _].
    unfold plain_line in H. apply andb_prop in H as [_ H].
    apply negb_true_iff in H.
    unfold classify, strip_cr. rewrite H. unfold inspect.
    destruct Hl as [-> | [-> | ->]]; [reflexivity| |].
    - rewrite orb_true_r. reflexivity.
    - destruct (_ || _); reflexivity. }
  rewrite (single_chunk_answer _ p H), (single_chunk_answer _ p H').
  rewrite (@deltas_until_stop_skip ls1 ls2 l Hc). reflexivity.
Qed.

(** X6. Within a chunk the terminator ends the answer: the lines after
    it in the same chunk add nothing. *)
Theorem terminator_ends_the_chunk (ls1 ls2 : list text) (p : page) :
  forallb plain_line (ls1 ++ ls2) = true ->
  snd (decode_stream
         {| chunks := [event_stream [LF] (ls1 ++ js "data: [DONE]" :: ls2)];
            read_failure := None |} p)
  = snd (decode_stream {| chunks := [event_stream [LF] ls1];
                          read_failure := None |} p).
Proof.
  intros H. rewrite forallb_app in H. apply andb_prop in H as [H1 H2].
  assert (H : forallb plain_line (ls1 ++ js "data: [DONE]" :: ls2) = true).
  { rewrite forallb_app, H1. simpl forallb. rewrite H2. reflexivity. }
  rewrite (single_chunk_answer _ p H), (single_chunk_answer _ p H1).
  f_equal. destruct (runs_through ls1) eqn:Er.
  - rewrite (@deltas_until_stop_through ls1 (js "data: [DONE]" :: ls2) Er). apply app_nil_r.
  - apply deltas_until_stop_stopped, Er.
Qed.

(** X7. Where the stream is cut into chunks does not matter, as long as
    no chunk but the last completes a terminator line: two such streams
    with the same text give the same answer. *)
Theorem chunk_cuts_do_not_matter (values1 values2 : list text) (p : page) :
  concat values1 = concat values2 ->
  done_ends_stream values1 = true -> done_ends_stream values2 = true ->
  snd (decode_stream {| chunks := values1; read_failure := None |} p)
  = snd (decode_stream {| chunks := values2; read_failure := None |} p).
Proof.
  intros Hc H1 H2. unfold decode_stream. cbn [chunks read_failure snd].
  f_equal. apply chunking_is_irrelevant; assumption.
Qed.

(* =================================================================== *)
(** ** Further properties of the page                                    *)
(* =================================================================== *)

Lemma replace_last_content_last (content : text) (base : list Message) (m : Message) :
  replace_last_content content (base ++ [m])
  = base ++ [{| msg_id := msg_id m; msg_role := msg_role m;
                msg_content := content; msg_timestamp := msg_timestamp m |}].
Proof.
  induction base as [|x base IH]; [reflexivity|].
  simpl. rewrite IH. destruct (base ++ [m]) eqn:E; [|reflexivity].
  destruct base; discriminate.
Qed.

Section Transcript.

Hypothesis fresh_ids :
  forall n, text_eqb (randomUUID b n) (js "welcome") = false.

Variable base : list Message.
Hypothesis base_closed : streaming_last base = false.

Lemma show_streaming_shown (d : decoding) (c rest : text) :
  shown base d ->
  shown base {| textBuffer := rest; fullResponse := fullResponse d ++ c;
                screen := show_streaming b (fullResponse d ++ c) (screen d) |}.
Proof.
  intros [[Hm Hf]|(m & Hm & Hc & Hr & Hi)]; right; unfold show_streaming.
  - fold (streaming_last (messages (screen d))). rewrite Hm, base_closed.
    eexists. simpl. rewrite Hm. repeat split. apply fresh_ids.
  - fold (streaming_last (messages (screen d))).
    assert (Hs : streaming_last (messages (screen d)) = true).
    { unfold streaming_last. rewrite Hm, rev_app_distr. simpl.
      rewrite Hr, Hi. reflexivity. }
    rewrite Hs. eexists. simpl. rewrite Hm, replace_last_content_last.
    repeat split; assumption.
Qed.

Lemma lines_loop_shown (fuel : nat) (d : decoding) :
  shown base d -> shown base (lines_loop fuel d).
Proof.
  revert d. induction fuel as [|fuel IH]; intros d Hd; [exact Hd|].
  destruct (indexOf1 LF (textBuffer d)) as [n|] eqn:E.
  - rewrite (lines_loop_step _ _ E). cbv zeta.
    destruct (classify _) as [| |[c|]|]; try (apply IH); try exact Hd.
    apply show_streaming_shown, Hd.
  - rewrite lines_loop_idle by assumption. exact Hd.
Qed.

Lemma read_loop_shown (values : list text) (d : decoding) :
  shown base d -> shown base (read_loop values d).
Proof.
  revert d. induction values as [|v vs IH]; intros d Hd; [exact Hd|].
  simpl. apply IH. unfold on_chunk. apply lines_loop_shown. exact Hd.
Qed.

End Transcript.

Lemma streamChat_returns
    (userId : option text) (question : text) (p p1 : page) (response : text) :
  streamChat userId question p = (p1, Returns response) ->
  exists values,
    p1 = screen (read_loop values (start_decoding (perform (Fetch question userId) p)))
    /\ response
       = fullResponse (read_loop values
                         (start_decoding (perform (Fetch question userId) p))).
Proof.
  unfold streamChat.
  destruct (fetch b question userId) as [e|resp]; [discriminate|].
  destruct (resp_status resp =? 429)%Z; [discriminate|].
  destruct (resp_status resp =? 402)%Z; [discriminate|].
  destruct (resp_ok resp); [|discriminate].
  destruct (resp_body resp) as [s|]; [|discriminate].
  unfold decode_stream. destruct (read_failure s); [discriminate|].
  intros [= <- <-]. exists (chunks s). split; reflexivity.
Qed.

(** What [persist] leaves alone: the transcript, the input box and the
    loading flag; and it sends no request. *)
Lemma save_topics_frame (user_id : text) (topics : list json) (p : page) :
  messages (save_topics user_id topics p) = messages p
  /\ input (save_topics user_id topics p) = input p
  /\ isLoading (save_topics user_id topics p) = isLoading p
  /\ filter is_fetch (effects (save_topics user_id topics p))
     = filter is_fetch (effects p).
Proof.
  unfold save_topics. revert p. induction topics as [|t ts IH]; intros p.
  - repeat split.
  - simpl. destruct (IH (draw (perform (InsertTopic user_id General t
                            (probability (Math_random b (draws p)))) p)))
      as (H1 & H2 & H3 & H4).
    rewrite H1, H2, H3, H4. simpl. rewrite filter_app. simpl.
    rewrite app_nil_r. repeat split.
Qed.

Lemma persist_frame (user_id q response : text) (p : page) :
  messages (persist user_id q response p) = messages p
  /\ input (persist user_id q response p) = input p
  /\ isLoading (persist user_id q response p) = isLoading p
  /\ filter is_fetch (effects (persist user_id q response p))
     = filter is_fetch (effects p).
Proof.
  unfold persist.
  assert (Hperf : forall s p',
            messages p' = messages p -> input p' = input p ->
            isLoading p' = isLoading p ->
            filter is_fetch (effects p') = filter is_fetch (effects p) ->
            messages (perform (InsertAnswer user_id q response s General) p')
            = messages p
            /\ input (perform (InsertAnswer user_id q response s General) p')
               = input p
            /\ isLoading (perform (InsertAnswer user_id q response s General) p')
               = isLoading p
            /\ filter is_fetch
                 (effects (perform (InsertAnswer user_id q response s General) p'))
               = filter is_fetch (effects p)).
  { intros s p' H1 H2 H3 H4. simpl. rewrite filter_app. simpl.
    rewrite app_nil_r. auto. }
  destruct (fence_match response) as [block|]; [|apply Hperf; reflexivity].
  unfold extract.
  assert (Hfail :
    forall p', p' = perform (ConsoleLog (js "Could not parse JSON from response")) p ->
      messages p' = messages p /\ input p' = input p
      /\ isLoading p' = isLoading p
      /\ filter is_fetch (effects p') = filter is_fetch (effects p)).
  { intros p' ->. simpl. rewrite filter_app. simpl. rewrite app_nil_r. auto. }
  destruct (JSON_parse block) as [parsed|];
    [|destruct (Hfail _ eq_refl) as (?&?&?&?); apply Hperf; assumption].
  destruct parsed;
    try (destruct (Hfail _ eq_refl) as (?&?&?&?); apply Hperf; assumption);
    (destruct (truthy _ && is_array _);
     [destruct (get (js "important_topics") _) as [[]|];
      try (apply Hperf; reflexivity);
      match goal with
      | |- context [save_topics ?u ?ts ?q] =>
          destruct (save_topics_frame u ts q) as (?&?&?&?)
      end; apply Hperf; assumption
     |apply Hperf; reflexivity]).
Qed.

Lemma text_neq_eqb (a c : text) : a <> c -> text_eqb a c = false.
Proof.
  intros H. destruct (text_eqb a c) eqn:E; [|reflexivity].
  apply text_eqb_eq in E. contradiction.
Qed.

Lemma show_streaming_input (full : text) (p : page) :
  input (show_streaming b full p) = input p.
Proof.
  unfold show_streaming. destruct (rev (messages p)) as [|last prev]; [reflexivity|].
  destruct (is_assistant _ && _); reflexivity.
Qed.

Lemma lines_loop_input (fuel : nat) (d : decoding) :
  input (screen (lines_loop fuel d)) = input (screen d).
Proof.
  revert d. induction fuel as [|fuel IH]; intros d; [reflexivity|].
  destruct (indexOf1 LF (textBuffer d)) as [n|] eqn:E.
  - rewrite (lines_loop_step _ _ E). cbv zeta.
    destruct (classify _) as [| |[c|]|]; try reflexivity; rewrite IH; simpl;
      auto using show_streaming_input.
  - rewrite lines_loop_idle by assumption. reflexivity.
Qed.

Lemma read_loop_input (values : list text) (d : decoding) :
  input (screen (read_loop values d)) = input (screen d).
Proof.
  revert d. induction values as [|v vs IH]; intros d; [reflexivity|].
  simpl. unfold read_loop in IH. rewrite IH. unfold on_chunk.
  rewrite lines_loop_input. reflexivity.
Qed.

Lemma streamChat_input (userId : option text) (question : text) (p : page) :
  input (fst (streamChat userId question p)) = input p.
Proof.
  unfold streamChat.
  destruct (fetch b question userId) as [e|resp]; [reflexivity|].
  destruct (resp_status resp =? 429)%Z; [reflexivity|].
  destruct (resp_status resp =? 402)%Z; [reflexivity|].
  destruct (resp_ok resp); [|reflexivity].
  destruct (resp_body resp) as [s|]; [|reflexivity].
  unfold decode_stream.
  destruct (read_failure s); simpl; apply read_loop_input.
Qed.

(** X8. After a request that [streamChat] completes, the transcript is
    the old one, the question, and at most one new assistant message,
    whose content is the assembled answer; signed in or not.  Message
    ids are assumed never to be the welcome message's. *)
Theorem answer_is_one_message
    (user text_arg : option text) (p p1 : page) (response : text) :
  (forall n, text_eqb (randomUUID b n) (js "welcome") = false) ->
  messageText text_arg p <> [] ->
  streamChat user (messageText text_arg p)
    (sending (messageText text_arg p) p) = (p1, Returns response) ->
  let asked := new_message b (draws p) user_role (messageText text_arg p) in
  (messages (handleSend user text_arg p) = messages p ++ [asked]
   /\ response = [])
  \/ exists m,
       messages (handleSend user text_arg p) = messages p ++ [asked; m]
       /\ msg_content m = response
       /\ msg_role m = assistant_role.
Proof.
  intros Hid Hq Hs asked.
  assert (Hm : messages (handleSend user text_arg p) = messages p1).
  { rewrite handleSend_unfold. cbv zeta.
    rewrite (text_neq_eqb Hq), Hs.
    destruct user as [uid|]; [|reflexivity].
    destruct (text_eqb response []); [reflexivity|].
    destruct (persist_frame uid (messageText text_arg p) response p1) as [H _].
    simpl. exact H. }
  rewrite Hm.
  destruct (streamChat_returns _ _ _ Hs) as (values & -> & ->).
  assert (Hbase : streaming_last (messages p ++ [asked]) = false).
  { unfold streaming_last. rewrite rev_app_distr. reflexivity. }
  destruct (@read_loop_shown Hid (messages p ++ [asked]) Hbase values
              (start_decoding (perform (Fetch (messageText text_arg p) user)
                                 (sending (messageText text_arg p) p))))
    as [[H1 H2]|(m & H1 & H2 & H3 & _)].
  - left. split; reflexivity.
  - left. split; assumption.
  - right. exists m. rewrite H1, <- ?app_assoc. repeat split; assumption.
Qed.

(** The page after the [catch] block and [finally], when [streamChat]
    threw before it showed anything. *)
Lemma catch_page
    (user : option text) (q title message sorry : text) (e : exn) (p : page) :
  setIsLoading false
    (let (p1, outcome) :=
       (perform (Fetch q user) (sending q p), Throws (A := text) e) in
     match outcome with
     | Returns _ => p1
     | Throws error =>
         let p2 := perform (ConsoleError error) p1 in
         let p3 := perform (Toast title message) p2 in
         draw (setMessages (fun prev => prev ++
                 [new_message b (draws p3) assistant_role sorry]) p3)
     end)
  = {| messages :=
         messages p ++ [ new_message b (draws p) user_role q;
                         new_message b (S (draws p)) assistant_role sorry ];
       input := [];
       isLoading := false;
       draws := S (S (draws p));
       effects :=
         effects p ++ [Fetch q user; ConsoleError e; Toast title message] |}.
Proof.
  destruct p as [ms i l d es].
  cbv beta iota zeta delta
    [sending setIsLoading setInput setMessages draw perform
     messages input isLoading draws effects].
  rewrite <- !app_assoc. reflexivity.
Qed.

(** X9. A request that the relay answers with a status outside
    200..299, or with no body, ends with the question and the apology in
    the transcript, the input box empty, the loading flag cleared, and
    one error toast carrying one of the three fixed messages; nothing is
    stored. *)
Theorem refused_request_is_apologised
    (user text_arg : option text) (p : page) (resp : fetch_response) :
  messageText text_arg p <> [] ->
  fetch b (messageText text_arg p) user = FetchResolved resp ->
  resp_ok resp = false \/ resp_body resp = None ->
  exists message,
    In message [ js "Rate limit exceeded. Please try again in a moment.";
                 js "AI credits exhausted. Please contact support.";
                 js "Failed to get AI response" ]
    /\ handleSend user text_arg p
       = {| messages :=
              messages p
              ++ [ new_message b (draws p) user_role (messageText text_arg p);
                   new_message b (S (draws p)) assistant_role apology ];
            input := [];
            isLoading := false;
            draws := S (S (draws p));
            effects :=
              effects p
              ++ [ Fetch (messageText text_arg p) user;
                   ConsoleError (ErrorObject message);
                   Toast (js "Error") message ] |}.
Proof.
  intros Hq Hf Hno.
  rewrite handleSend_unfold. cbv zeta. rewrite (text_neq_eqb Hq).
  unfold streamChat. rewrite Hf.
  destruct (resp_status resp =? 429)%Z;
    [eexists; split; [left; reflexivity|apply catch_page]|].
  destruct (resp_status resp =? 402)%Z;
    [eexists; split; [right; left; reflexivity|apply catch_page]|].
  exists (js "Failed to get AI response").
  split; [right; right; left; reflexivity|].
  destruct Hno as [H|H]; rewrite H; [apply catch_page|].
  destruct (resp_ok resp); apply catch_page.
Qed.

(** X10. However [streamChat] fails (the request rejected or refused, or
    the body failing while it is read), nothing is stored, one error
    toast is raised, and the transcript ends with the apology. *)
Theorem failure_stores_nothing
    (user text_arg : option text) (p p1 : page) (e : exn) :
  messageText text_arg p <> [] ->
  streamChat user (messageText text_arg p)
    (sending (messageText text_arg p) p) = (p1, Throws e) ->
  inserts (handleSend user text_arg p) = inserts p
  /\ (exists message,
        effects (handleSend user text_arg p)
        = effects p ++ [ Fetch (messageText text_arg p) user;
                         ConsoleError e;
                         Toast (js "Error") message ])
  /\ exists m,
       messages (handleSend user text_arg p) = messages p1 ++ [m]
       /\ msg_content m = apology
       /\ msg_role m = assistant_role.
Proof.
  intros Hq Hs.
  pose proof (streamChat_effects user (messageText text_arg p)
                (sending (messageText text_arg p) p)) as He.
  rewrite Hs in He. simpl in He.
  rewrite handleSend_unfold. cbv zeta. rewrite (text_neq_eqb Hq), Hs.
  unfold inserts. simpl. rewrite He, <- !app_assoc. simpl.
  split; [|split].
  - rewrite filter_app. simpl. apply app_nil_r.
  - eexists. reflexivity.
  - eexists. repeat split.
Qed.

(** X11. Every call of [handleSend] that has a question sends exactly
    one request, with that question and the user's id, and ends with the
    input box empty and the loading flag cleared, whatever the relay
    does. *)
Theorem one_request_per_question
    (user text_arg : option text) (p : page) :
  messageText text_arg p <> [] ->
  filter is_fetch (effects (handleSend user text_arg p))
  = filter is_fetch (effects p) ++ [Fetch (messageText text_arg p) user]
  /\ input (handleSend user text_arg p) = []
  /\ isLoading (handleSend user text_arg p) = false.
Proof.
  intros Hq.
  pose proof (streamChat_effects user (messageText text_arg p)
                (sending (messageText text_arg p) p)) as He.
  pose proof (streamChat_input user (messageText text_arg p)
                (sending (messageText text_arg p) p)) as Hi.
  rewrite handleSend_unfold. cbv zeta. rewrite (text_neq_eqb Hq).
  destruct (streamChat user (messageText text_arg p)
              (sending (messageText text_arg p) p)) as [p1 [response|e]];
    simpl in He, Hi.
  - assert (H1 : filter is_fetch (effects p1)
                 = filter is_fetch (effects p)
                   ++ [Fetch (messageText text_arg p) user]).
    { rewrite He, filter_app. reflexivity. }
    destruct user as [uid|]; [|repeat split; assumption].
    destruct (text_eqb response []); [repeat split; assumption|].
    destruct (persist_frame uid (messageText text_arg p) response p1)
      as (_ & H2 & _ & H4).
    simpl. rewrite H2, H4. repeat split; assumption.
  - simpl. rewrite He, !filter_app. simpl. rewrite !app_nil_r.
    repeat split; assumption.
Qed.

(* =================================================================== *)
(** ** Further properties of the extractor                               *)
(* =================================================================== *)

Lemma startsWith_split (pre s : text) :
  startsWith pre s = true -> exists t, s = pre ++ t.
Proof.
  revert s. induction pre as [|x pre IH]; intros s H; [exists s; reflexivity|].
  destruct s as [|y s]; [discriminate|].
  simpl in H. apply andb_prop in H as [Hx Hp]. apply N.eqb_eq in Hx as ->.
  destruct (IH _ Hp) as [t ->]. exists t. reflexivity.
Qed.

Lemma ws_then_close_split (s : text) :
  ws_then_close s = true ->
  exists gap post, s = gap ++ fence_close ++ post /\ all_ws gap = true.
Proof.
  induction s as [|c s IH]; [discriminate|].
  intros H.
  assert (Hhead : startsWith fence_close (c :: s) = true ->
                  exists gap post,
                    c :: s = gap ++ fence_close ++ post /\ all_ws gap = true).
  { intros Hc. destruct (startsWith_split _ _ Hc) as [post Hp].
    exists [], post. split; [exact Hp|reflexivity]. }
  cbn [ws_then_close] in H. destruct (is_ws c) eqn:Ec; [|auto].
  apply orb_prop in H as [H|H]; [|auto].
  destruct (IH H) as (gap & post & -> & Hg).
  exists (c :: gap), post. split; [reflexivity|]. simpl. rewrite Ec. exact Hg.
Qed.

Lemma lazy_group_split (s g : text) :
  lazy_group s = Some g ->
  exists gap post, s = g ++ gap ++ fence_close ++ post /\ all_ws gap = true.
Proof.
  revert g. induction s as [|c s IH]; intros g H; rewrite lazy_group_eq in H.
  - destruct (ws_then_close []) eqn:E; [discriminate E|discriminate H].
  - destruct (ws_then_close (c :: s)) eqn:E.
    + injection H as <-. apply ws_then_close_split, E.
    + destruct (lazy_group s) as [g'|]; [|discriminate].
      injection H as <-. destruct (IH _ eq_refl) as (gap & post & -> & Hg).
      exists gap, post. split; [reflexivity|exact Hg].
Qed.

Lemma after_open_split (s g : text) :
  after_open s = Some g ->
  exists gap1 gap2 post,
    s = gap1 ++ g ++ gap2 ++ fence_close ++ post
    /\ all_ws gap1 = true /\ all_ws gap2 = true.
Proof.
  assert (Hlazy : forall s, lazy_group s = Some g ->
            exists gap1 gap2 post,
              s = gap1 ++ g ++ gap2 ++ fence_close ++ post
              /\ all_ws gap1 = true /\ all_ws gap2 = true).
  { intros s' H. destruct (lazy_group_split _ H) as (gap & post & -> & Hg).
    exists [], gap, post. repeat split. exact Hg. }
  induction s as [|c s IH]; intros H; [apply Hlazy, H|].
  cbn [after_open] in H. destruct (is_ws c) eqn:Ec; [|apply Hlazy, H].
  destruct (after_open s) as [g'|]; [|apply Hlazy, H].
  injection H as ->.
  destruct (IH eq_refl) as (gap1 & gap2 & post & -> & H1 & H2).
  exists (c :: gap1), gap2, post. repeat split; [|exact H2].
  simpl. rewrite Ec. exact H1.
Qed.

(** X12. What the pattern captures is fenced: the answer reads, in this
    order, anything, the opening fence, white space, the captured text,
    white space, the closing fence, anything. *)
Theorem captured_block_is_fenced (response block : text) :
  fence_match response = Some block ->
  exists pre gap1 gap2 post,
    response = pre ++ fence_open ++ gap1 ++ block ++ gap2 ++ fence_close ++ post
    /\ all_ws gap1 = true /\ all_ws gap2 = true.
Proof.
  induction response as [|c s IH]; intros H; rewrite fence_match_eq in H.
  - discriminate.
  - destruct (startsWith fence_open (c :: s)) eqn:E.
    + destruct (startsWith_split _ _ E) as [tail Ht].
      destruct (after_open (skipn (length fence_open) (c :: s))) as [g|] eqn:Ea.
      * injection H as ->. rewrite Ht in Ea.
        change (skipn (length fence_open) (fence_open ++ tail)) with tail in Ea.
        destruct (after_open_split _ Ea) as (gap1 & gap2 & post & -> & H1 & H2).
        exists [], gap1, gap2, post. repeat split; assumption.
      * destruct (IH H) as (pre & gap1 & gap2 & post & -> & H1 & H2).
        exists (c :: pre), gap1, gap2, post. repeat split; assumption.
    + destruct (IH H) as (pre & gap1 & gap2 & post & -> & H1 & H2).
      exists (c :: pre), gap1, gap2, post. repeat split; assumption.
Qed.

Lemma lazy_group_finds (mid post : text) :
  lazy_group (mid ++ fence_close ++ post) <> None.
Proof.
  induction mid as [|c mid IH]; rewrite lazy_group_eq.
  - change (ws_then_close ([] ++ fence_close ++ post)) with true. discriminate.
  - destruct (ws_then_close _); [discriminate|].
    cbn [app]. destruct (lazy_group (mid ++ fence_close ++ post));
      [discriminate|contradiction].
Qed.

Lemma after_open_finds (s : text) :
  lazy_group s <> None -> after_open s <> None.
Proof.
  destruct s as [|c s]; [auto|]. intros H. cbn [after_open].
  destruct (is_ws c); [|exact H].
  destruct (after_open s); [discriminate|exact H].
Qed.

(** X13. The pattern finds a block in every answer that has an opening
    fence with a closing fence somewhere after it, whatever lies between
    and around them. *)
Theorem fence_pair_is_matched (pre mid post : text) :
  fence_match (pre ++ fence_open ++ mid ++ fence_close ++ post) <> None.
Proof.
  induction pre as [|c pre IH]; rewrite fence_match_eq.
  - change (startsWith fence_open ([] ++ fence_open ++ mid ++ fence_close ++ post))
      with true.
    cbv iota.
    change (skipn (length fence_open)
              ([] ++ fence_open ++ mid ++ fence_close ++ post))
      with (mid ++ fence_close ++ post).
    pose proof (@after_open_finds _ (lazy_group_finds mid post)) as H.
    destruct (after_open (mid ++ fence_close ++ post)); [discriminate|contradiction].
  - cbn [app].
    destruct (if startsWith fence_open (c :: pre ++ fence_open ++ mid ++ fence_close ++ post)
              then _ else None); [discriminate|exact IH].
Qed.

Lemma save_topics_effects (user_id : text) (topics : list json) (p : page) :
  effects (save_topics user_id topics p)
  = effects p
    ++ topic_records user_id topics
         (List.map (fun n => probability (Math_random b n))
            (seq (draws p) (length topics)))
  /\ draws (save_topics user_id topics p) = draws p + length topics.
Proof.
  unfold save_topics. revert p. induction topics as [|t ts IH]; intros p.
  - simpl. rewrite app_nil_r. split; [reflexivity|lia].
  - cbn [fold_left length seq List.map].
    destruct (IH (draw (perform (InsertTopic user_id General t
                          (probability (Math_random b (draws p)))) p)))
      as [He Hd].
    rewrite He, Hd. simpl. rewrite <- app_assoc. split; [reflexivity|lia].
Qed.

(** X14. When the captured block parses to an object whose
    [important_topics] is an array, [persist] stores one topic record per
    element, in the array's order, the k-th with the likelihood computed
    from the k-th random draw, a value between 70 and 99, and after them
    one answer record; the summary stored is the block's when that is
    truthy, and the empty string otherwise. *)
Theorem every_topic_is_stored
    (uid q response block : text) (parsed : json) (topics : list json) (p : page) :
  (forall n, random_number (Math_random b n) = true) ->
  fence_match response = Some block ->
  JSON_parse block = Some parsed ->
  get (js "important_topics") parsed = Some (JArr topics) ->
  let probs :=
    List.map (fun n => probability (Math_random b n))
      (seq (draws p) (length topics)) in
  exists summary : json,
    effects (persist uid q response p)
    = effects p ++ topic_records uid topics probs
      ++ [InsertAnswer uid q response summary General]
    /\ Forall (fun z => 70 <= z <= 99)%Z probs
    /\ draws (persist uid q response p) = draws p + length topics
    /\ ((truthy (get (js "summary") parsed) = true
         /\ get (js "summary") parsed = Some summary)
        \/ (truthy (get (js "summary") parsed) = false
            /\ summary = JStr [])).
Proof.
  intros Hrand Hm Hparse Htopics probs.
  unfold persist. rewrite Hm. unfold extract. rewrite Hparse.
  destruct parsed as [| | | | |ms]; try discriminate.
  rewrite Htopics.
  change (truthy (Some (JArr topics)) && is_array (Some (JArr topics))) with true.
  cbv iota.
  destruct (save_topics_effects uid topics p) as [He Hd].
  fold probs in He.
  assert (Hrange : Forall (fun z => 70 <= z <= 99)%Z probs).
  { apply Forall_forall. intros z Hz. apply in_map_iff in Hz as (n & <- & _).
    apply probability_range, Hrand. }
  destruct (get (js "summary") (JObj ms)) as [v|];
    [destruct (truthy (Some v)) eqn:Ev|];
    eexists; cbn [effects draws perform]; rewrite He, Hd, <- app_assoc;
    (split; [reflexivity|]); (split; [exact Hrange|]);
    (split; [reflexivity|]).
  - left. split; reflexivity.
  - right. split; reflexivity.
  - right. split; reflexivity.
Qed.

(** X15. When the captured block parses (be it to [null]) but its
    [important_topics] is not an array, [persist] stores no topic and
    draws no random number: the answer record is the only insert. *)
Theorem topics_must_be_an_array
    (uid q response block : text) (parsed : json) (p : page) :
  fence_match response = Some block ->
  JSON_parse block = Some parsed ->
  is_array (get (js "important_topics") parsed) = false ->
  exists summary,
    inserts (persist uid q response p)
    = inserts p ++ [InsertAnswer uid q response summary General]
    /\ draws (persist uid q response p) = draws p.
Proof.
  intros Hm Hparse Harr.
  unfold persist. rewrite Hm. unfold extract. rewrite Hparse.
  destruct parsed as [| | | | |ms];
    [|rewrite Harr, andb_false_r..];
    eexists; unfold inserts; cbn [effects draws perform];
    rewrite !filter_app; cbn [filter is_insert]; rewrite ?app_nil_r;
    split; reflexivity.
Qed.

(* =================================================================== *)
(** ** Further properties of the relay                                   *)
(* =================================================================== *)

Lemma not_options (req : Request) :
  req_method req <> js "OPTIONS" ->
  text_eqb (req_method req) (js "OPTIONS") = false.
Proof. apply text_neq_eqb. Qed.

(** X16. A request with a question, when the gateway key is not set or
    is empty, is answered 500 with the message that the key is not
    configured; the failure is logged, and neither the database nor the
    gateway is called. *)
Theorem missing_key_is_reported (req : Request) (parsed : json) :
  req_method req <> js "OPTIONS" ->
  JSON_parse (req_body req) = Some parsed ->
  truthy (get (js "question") parsed) = true ->
  LOVABLE_API_KEY w = None \/ LOVABLE_API_KEY w = Some [] ->
  status (fst (serve req)) = 500%Z
  /\ body (fst (serve req))
     = JsonBody (JObj [(js "error",
          JStr (js "LOVABLE_API_KEY is not configured"))])
  /\ header (js "Content-Type") (headers (fst (serve req)))
     = Some (js "application/json")
  /\ snd (serve req)
     = [LogFailure (ErrorObject (js "LOVABLE_API_KEY is not configured"))].
Proof.
  intros Hm Hb Hq Hk. unfold serve. rewrite (@not_options req Hm).
  unfold answer. rewrite Hb.
  destruct parsed; try discriminate Hq; rewrite Hq; cbn [negb];
    destruct Hk as [-> | ->]; repeat split.
Qed.

(** X17. A request whose body is not JSON, or is the JSON [null], is
    answered 500 with the message of the error thrown; the failure is
    logged, and neither the database nor the gateway is called. *)
Theorem unreadable_body_is_a_500 (req : Request) :
  req_method req <> js "OPTIONS" ->
  JSON_parse (req_body req) = None \/ JSON_parse (req_body req) = Some JNull ->
  exists message,
    status (fst (serve req)) = 500%Z
    /\ body (fst (serve req)) = JsonBody (JObj [(js "error", JStr message)])
    /\ header (js "Content-Type") (headers (fst (serve req)))
       = Some (js "application/json")
    /\ snd (serve req) = [LogFailure (ErrorObject message)].
Proof.
  intros Hm Hb. unfold serve. rewrite (@not_options req Hm).
  unfold answer. destruct Hb as [-> | ->]; eexists; repeat split.
Qed.

Ltac count_calls :=
  cbv beta iota zeta delta [bind emit ret throw fst snd];
  rewrite ?filter_app, ?selects_call_nothing;
  cbn [filter is_gateway_call app length status error_response In]; auto 10.

Lemma answer_calls_and_status (req : Request) :
  length (filter is_gateway_call (snd (answer req))) <= 1
  /\ match fst (answer req) with
     | Returns r => In (status r) [200; 400; 402; 429; 500]%Z
     | Throws _ => True
     end.
Proof.
  unfold answer.
  destruct (JSON_parse (req_body req)) as [parsed|]; [|count_calls].
  destruct (contexts_log (get (js "userId") parsed)) as [ctx Hctx].
  destruct parsed; [count_calls|idtac..];
    (destruct (negb (truthy _)); [count_calls|];
     destruct (LOVABLE_API_KEY w) as [key|]; [|count_calls];
     destruct (text_eqb key []); [count_calls|];
     destruct (createClient w _ _); [count_calls|];
     rewrite Hctx; unfold bind, emit, ret, throw; cbv zeta;
     destruct (gateway w _) as [e|response]; [count_calls|];
     destruct (negb (resp_ok response)); [|count_calls];
     destruct (resp_status response =? 429)%Z; [count_calls|];
     destruct (resp_status response =? 402)%Z; [count_calls|];
     unfold response_text;
     destruct (resp_body response) as [st|];
     [destruct (read_failure st)|]; count_calls).
Qed.

(** X18. Whatever the request, the relay calls the gateway at most once
    and answers with one of the statuses 200, 400, 402, 429 and 500. *)
Theorem one_gateway_call_at_most (req : Request) :
  length (filter is_gateway_call (snd (serve req))) <= 1
  /\ In (status (fst (serve req))) [200; 400; 402; 429; 500]%Z.
Proof.
  unfold serve.
  destruct (text_eqb (req_method req) (js "OPTIONS")); [simpl; auto|].
  destruct (answer_calls_and_status req) as [Hn Hs].
  destruct (answer req) as [[r|e] log]; simpl in *.
  - split; assumption.
  - rewrite filter_app. simpl. rewrite app_nil_r. split; [assumption|auto 10].
Qed.

Ltac the_call :=
  eexists _, _; cbv beta iota zeta delta [bind emit ret throw fst snd];
  rewrite <- ?app_assoc; cbn [app];
  split; [reflexivity|split; reflexivity].

(** X19. A request with a question that reaches the gateway: the relay
    first runs the two queries when [userId] is truthy and none
    otherwise, then makes its one gateway call, which carries the
    configured key as a bearer token, the fixed model name, the question
    as it came as the user message, and asks for a stream. *)
Theorem gateway_call_carries_the_question
    (req : Request) (parsed : json) (key : text) :
  req_method req <> js "OPTIONS" ->
  JSON_parse (req_body req) = Some parsed ->
  truthy (get (js "question") parsed) = true ->
  LOVABLE_API_KEY w = Some key -> key <> [] ->
  createClient w (SUPABASE_URL w) (SUPABASE_SERVICE_ROLE_KEY w) = None ->
  exists prompt rest,
    snd (serve req)
    = selects (get (js "userId") parsed)
      ++ GatewayCall {| authorization := js "Bearer " ++ key;
                        model := js "google/gemini-2.5-flash";
                        system_content := prompt;
                        user_content := get (js "question") parsed;
                        stream := true |}
         :: rest
    /\ filter is_gateway_call rest = []
    /\ filter is_select rest = [].
Proof.
  intros Hm Hb Hq Hk Hkne Hc.
  unfold serve. rewrite (@not_options req Hm). unfold answer. rewrite Hb.
  destruct (contexts_log (get (js "userId") parsed)) as [ctx Hctx].
  destruct parsed; try discriminate Hq;
    rewrite Hq, Hk, (text_neq_eqb Hkne), Hc, Hctx; cbn [negb];
    unfold bind, emit, ret, throw; cbv zeta;
    (destruct (gateway w _) as [e|response]; [the_call|]);
    (destruct (negb (resp_ok response)); [|the_call]);
    (destruct (resp_status response =? 429)%Z; [the_call|]);
    (destruct (resp_status response =? 402)%Z; [the_call|]);
    unfold response_text;
    (destruct (resp_body response) as [st|]; [destruct (read_failure st)|]);
    the_call.
Qed.

Ltac read_log :=
  cbv beta iota zeta delta [bind emit ret throw fst snd];
  rewrite ?existsb_app, ?selects_log_nothing;
  cbn [existsb is_error_log orb app status error_response];
  try (split; intros H; first [reflexivity | discriminate H]).

Lemma answer_logs_its_500 (req : Request) :
  match answer req with
  | (Returns r, log) => status r = 500%Z <-> existsb is_error_log log = true
  | (Throws _, _) => True
  end.
Proof.
  unfold answer.
  destruct (JSON_parse (req_body req)) as [parsed|]; [|exact I].
  destruct (contexts_log (get (js "userId") parsed)) as [ctx Hctx].
  destruct parsed; [exact I|idtac..];
    (destruct (negb (truthy _)); [read_log|];
     destruct (LOVABLE_API_KEY w) as [key|]; [|exact I];
     destruct (text_eqb key []); [exact I|];
     destruct (createClient w _ _); [exact I|];
     rewrite Hctx; unfold bind, emit, ret, throw; cbv zeta;
     destruct (gateway w _) as [e|response]; [exact I|];
     destruct (negb (resp_ok response)); [|read_log];
     destruct (resp_status response =? 429)%Z; [read_log|];
     destruct (resp_status response =? 402)%Z; [read_log|];
     unfold response_text;
     destruct (resp_body response) as [st|];
     [destruct (read_failure st)|]; first [exact I | read_log]).
Qed.

(** X20. The relay writes to the error log exactly when it answers
    500. *)
Theorem a_500_is_logged_and_nothing_else (req : Request) :
  status (fst (serve req)) = 500%Z
  <-> existsb is_error_log (snd (serve req)) = true.
Proof.
  unfold serve.
  destruct (text_eqb (req_method req) (js "OPTIONS")); [read_log|].
  pose proof (answer_logs_its_500 req) as H.
  destruct (answer req) as [[r|e] log]; [exact H|].
  cbn [fst snd status error_response]. rewrite existsb_app. simpl.
  rewrite orb_true_r. split; reflexivity.
Qed.

Lemma existsb_text_eqb (x : text) (seen : list text) :
  existsb (text_eqb x) seen = true <-> In x seen.
Proof.
  rewrite existsb_exists. split.
  - intros (y & Hy & E). apply text_eqb_eq in E. subst. exact Hy.
  - intros H. exists x. split; [exact H|apply text_eqb_refl].
Qed.

Lemma distinct_from (xs seen : list text) :
  NoDup seen ->
  NoDup (fold_left (fun seen x => if existsb (text_eqb x) seen then seen
                                  else seen ++ [x]) xs seen)
  /\ forall x,
       In x (fold_left (fun seen x => if existsb (text_eqb x) seen then seen
                                      else seen ++ [x]) xs seen)
       <-> In x seen \/ In x xs.
Proof.
  revert seen. induction xs as [|y xs IH]; intros seen Hnd.
  - simpl. split; [exact Hnd|]. intros x. tauto.
  - cbn [fold_left]. destruct (existsb (text_eqb y) seen) eqn:E.
    + destruct (IH seen Hnd) as [H1 H2]. split; [exact H1|].
      intros x. rewrite H2. simpl. apply existsb_text_eqb in E.
      split; [tauto|]. intros [H|[<-|H]]; auto.
    + assert (Hy : ~ In y seen).
      { intros H. apply existsb_text_eqb in H. congruence. }
      assert (Hnd' : NoDup (seen ++ [y])).
      { apply NoDup_app; [exact Hnd|repeat constructor; simpl; tauto|].
        intros a Ha [<-|[]]. contradiction. }
      destruct (IH _ Hnd') as [H1 H2]. split; [exact H1|].
      intros x. rewrite H2, in_app_iff. simpl. tauto.
Qed.

Lemma distinct_each_once (xs : list text) :
  NoDup (distinct xs) /\ forall x, In x (distinct xs) <-> In x xs.
Proof.
  destruct (@distinct_from xs [] (NoDup_nil _)) as [H1 H2].
  split; [exact H1|]. intros x. unfold distinct. rewrite H2. simpl. tauto.
Qed.

(** X21. For a truthy [userId] whose past-papers query returns rows, the
    past-papers context that [contexts] builds reads: the fixed words,
    the number of rows, and a comma-separated list of years in which
    every year of a row is listed, nothing else is, and none is listed
    twice. *)
Theorem years_are_listed_once (uid : json) (rows : list paper_row) :
  truthy (Some uid) = true ->
  select_past_papers w uid = Some rows ->
  rows <> [] ->
  exists (ctx : text * text) (log : list relay_effect) (years : list text),
    contexts (Some uid) = (Returns ctx, log)
    /\ snd ctx
       = js "User has uploaded " ++ nat_to_text (length rows)
         ++ js " past paper(s) from years: " ++ join (js ", ") years
    /\ NoDup years
    /\ (forall y, In y years <-> In y (List.map year rows)).
Proof.
  intros Hu Hrows Hne. unfold contexts. rewrite Hu, Hrows.
  destruct rows as [|r rs]; [contradiction|].
  destruct (distinct_each_once (List.map year (r :: rs))) as [Hnd Hin].
  eexists _, _, (distinct (List.map year (r :: rs))).
  split; [reflexivity|]. split; [reflexivity|]. split; assumption.
Qed.

(* =================================================================== *)
(** ** The relay and the page together                                   *)
(* =================================================================== *)

Lemma serve_status (req : Request) :
  In (status (fst (serve req))) [200; 400; 402; 429; 500]%Z.
Proof.
  unfold serve.
  destruct (text_eqb (req_method req) (js "OPTIONS")); [simpl; auto|].
  destruct (answer_calls_and_status req) as [_ Hs].
  destruct (answer req) as [[r|e] log]; simpl in *; [assumption|auto 10].
Qed.

(** X22. When the relay's response is not a 200 and reaches the page
    with its status, the page shows none of the relay's own error text:
    the transcript gets the question and the apology, and the toast is
    the rate-limit message for a 429, the credits message for a 402 and
    the general failure message for every other status; nothing is
    stored. *)
Theorem relay_error_is_apologised
    (req : Request) (user text_arg : option text) (p : page)
    (resp : fetch_response) :
  messageText text_arg p <> [] ->
  fetch b (messageText text_arg p) user = FetchResolved resp ->
  resp_status resp = status (fst (serve req)) ->
  status (fst (serve req)) <> 200%Z ->
  let message :=
    if (status (fst (serve req)) =? 429)%Z then
      js "Rate limit exceeded. Please try again in a moment."
    else if (status (fst (serve req)) =? 402)%Z then
      js "AI credits exhausted. Please contact support."
    else js "Failed to get AI response" in
  handleSend user text_arg p
  = {| messages :=
         messages p
         ++ [ new_message b (draws p) user_role (messageText text_arg p);
              new_message b (S (draws p)) assistant_role apology ];
       input := [];
       isLoading := false;
       draws := S (S (draws p));
       effects :=
         effects p
         ++ [ Fetch (messageText text_arg p) user;
              ConsoleError (ErrorObject message);
              Toast (js "Error") message ] |}.
Proof.
  intros Hq Hf Hst Hne message. subst message.
  rewrite handleSend_unfold. cbv zeta. rewrite (text_neq_eqb Hq).
  unfold streamChat. rewrite Hf. unfold resp_ok. rewrite Hst.
  pose proof (serve_status req) as Hin.
  destruct Hin as [H|[H|[H|[H|[H|[]]]]]]; rewrite <- H in *;
    [contradiction Hne; reflexivity|idtac..];
    cbn [Z.eqb Pos.eqb Z.leb Z.compare Pos.compare Pos.compare_cont andb];
    apply catch_page.
Qed.

End Platform.

(* ===================================================================== *)
(** * JSON.parse is total                                                 *)
(* ===================================================================== *)

Module ParserFacts.
Import Parser.

Lemma skip_ws_length (s : text) : length (skip_ws s) <= length s.
Proof.
  induction s as [|c s IH]; simpl; [lia|].
  destruct (json_ws c); simpl; lia.
Qed.

Lemma digits_length (s : text) : length (snd (digits s)) <= length s.
Proof.
  induction s as [|c s IH]; simpl; [lia|].
  destruct (is_digit c); simpl; [|lia].
  destruct (digits s); simpl in *; lia.
Qed.

Ltac stop := split; [discriminate|intros ? ? [=]].

Lemma string_body_bounded (n : nat) (s : text) :
  length s <= n ->
  string_body s <> Exhausted
  /\ forall t r, string_body s = Parsed t r -> length r < length s.
Proof.
  revert s. induction n as [|n IH]; intros s Hn.
  { destruct s; [stop|simpl in Hn; lia]. }
  destruct s as [|c s1]; [stop|]. simpl in Hn.
  cbn [string_body].
  destruct (c =? 34)%N; [split; [discriminate|intros ? ? [= _ <-]; simpl; lia]|].
  destruct (c <? 32)%N; [stop|].
  assert (Hrec : forall (u : N) (s' : text), length s' <= n ->
            match string_body s' with
            | Parsed t r => Parsed (u :: t) r
            | o => o
            end <> Exhausted
            /\ forall t r, match string_body s' with
                           | Parsed t r => Parsed (u :: t) r
                           | o => o
                           end = Parsed t r -> length r < length s').
  { intros u s' Hs'. destruct (IH s' Hs') as [H1 H2].
    destruct (string_body s') as [t r| |]; [|stop|contradiction].
    split; [discriminate|]. intros ? ? [= _ <-]. exact (H2 _ _ eq_refl). }
  destruct (c =? 92)%N.
  - destruct s1 as [|e s2]; [stop|].
    destruct (e =? 117)%N.
    + destruct s2 as [|a [|b0 [|c' [|d s3]]]]; try stop.
      destruct (hex4 a b0 c' d) as [u|]; [|stop].
      destruct (Hrec u s3) as [H1 H2]; [simpl in Hn; lia|].
      split; [exact H1|]. intros t r H. specialize (H2 _ _ H). simpl. lia.
    + destruct (simple_escape e) as [u|]; [|stop].
      destruct (Hrec u s2) as [H1 H2]; [simpl in Hn; lia|].
      split; [exact H1|]. intros t r H. specialize (H2 _ _ H). simpl. lia.
  - destruct (Hrec c s1) as [H1 H2]; [lia|].
    split; [exact H1|]. intros t r H. specialize (H2 _ _ H). simpl. lia.
Qed.

Lemma minus_part_length (s : text) :
  length (snd (minus_part s)) <= length s.
Proof.
  unfold minus_part. destruct s as [|c r]; simpl; [lia|].
  destruct (c =? 45)%N; simpl; lia.
Qed.

Lemma int_part_shortens (s i r : text) :
  int_part s = Some (i, r) -> length r < length s.
Proof.
  unfold int_part. destruct s as [|c s']; [discriminate|].
  destruct (c =? 48)%N; [intros [= _ <-]; simpl; lia|].
  destruct (is_digit c); [|discriminate].
  pose proof (digits_length s') as H. destruct (digits s') as [d r'].
  intros [= _ <-]. simpl in *. lia.
Qed.

Lemma frac_part_length (s f r : text) :
  frac_part s = Some (f, r) -> length r <= length s.
Proof.
  unfold frac_part. destruct s as [|c s']; [intros [= _ <-]; lia|].
  destruct (c =? 46)%N; [|intros [= _ <-]; lia].
  pose proof (digits_length s') as H. destruct (digits s') as [[|x d] r'];
    [discriminate|]. intros [= _ <-]. simpl in *. lia.
Qed.

Lemma exp_part_length (s e r : text) :
  exp_part s = Some (e, r) -> length r <= length s.
Proof.
  unfold exp_part. destruct s as [|c s']; [intros [= _ <-]; lia|].
  destruct ((c =? 101) || (c =? 69))%N; [|intros [= _ <-]; lia].
  destruct s' as [|g r1].
  - simpl. discriminate.
  - destruct ((g =? 43) || (g =? 45))%N.
    + pose proof (digits_length r1) as H. destruct (digits r1) as [[|x d] r'];
        [discriminate|]. intros [= _ <-]. simpl in *. lia.
    + pose proof (digits_length (g :: r1)) as H.
      destruct (digits (g :: r1)) as [[|x d] r'];
        [discriminate|]. intros [= _ <-]. simpl in *. lia.
Qed.

Lemma number_shortens (s : text) :
  number s <> Exhausted
  /\ forall t r, number s = Parsed t r -> length r < length s.
Proof.
  unfold number.
  pose proof (minus_part_length s) as H0.
  destruct (minus_part s) as [sign s0]. simpl in H0.
  destruct (int_part s0) as [[i s1]|] eqn:E1; [|stop].
  apply int_part_shortens in E1.
  destruct (frac_part s1) as [[f s2]|] eqn:E2; [|stop].
  apply frac_part_length in E2.
  destruct (exp_part s2) as [[e s3]|] eqn:E3; [|stop].
  apply exp_part_length in E3.
  split; [discriminate|]. intros ? ? [= _ <-]. lia.
Qed.

Lemma keyword_shortens (w : text) (v : json) (s : text) :
  w <> [] ->
  keyword w v s <> Exhausted
  /\ forall v' r, keyword w v s = Parsed v' r -> length r < length s.
Proof.
  intros Hw. unfold keyword. destruct (startsWith w s) eqn:E; [|stop].
  split; [discriminate|]. intros ? ? [= _ <-].
  rewrite length_skipn.
  assert (length w <= length s).
  { clear Hw. revert s E. induction w as [|x w IH]; intros [|y s]; simpl;
      try discriminate; try lia.
    intros H. apply andb_prop in H as [_ H]. apply IH in H. lia. }
  destruct w; [contradiction|]. simpl in *. lia.
Qed.

Lemma fuel_is_enough (fuel : nat) :
  (forall s, 2 * length s + 1 <= fuel -> terminates (value fuel s) s)
  /\ (forall s, 2 * length s + 2 <= fuel -> terminates (elements fuel s) s)
  /\ (forall s, 2 * length s + 2 <= fuel -> terminates (members fuel s) s).
Proof.
  unfold terminates.
  induction fuel as [|fuel (IHv & IHe & IHm)].
  { repeat split; intros; lia. }
  split; [|split]; intros s Hs.
  - (* value *)
    cbn [value]. destruct s as [|c r]; [stop|]. simpl in Hs.
    destruct (c =? 123)%N.
    { pose proof (skip_ws_length r) as Hr.
      destruct (skip_ws r) as [|c' r']; [stop|]. simpl in Hr.
      destruct (c' =? 125)%N;
        [split; [discriminate|intros ? ? [= _ <-]; simpl; lia]|].
      destruct (IHm (c' :: r')) as [H1 H2]; [simpl; lia|].
      destruct (members fuel (c' :: r')) as [ms r''| |];
        [|stop|contradiction].
      split; [discriminate|]. intros ? ? [= _ <-].
      specialize (H2 _ _ eq_refl). simpl in *. lia. }
    destruct (c =? 91)%N.
    { pose proof (skip_ws_length r) as Hr.
      destruct (skip_ws r) as [|c' r']; [stop|]. simpl in Hr.
      destruct (c' =? 93)%N;
        [split; [discriminate|intros ? ? [= _ <-]; simpl; lia]|].
      destruct (IHe (c' :: r')) as [H1 H2]; [simpl; lia|].
      destruct (elements fuel (c' :: r')) as [xs r''| |];
        [|stop|contradiction].
      split; [discriminate|]. intros ? ? [= _ <-].
      specialize (H2 _ _ eq_refl). simpl in *. lia. }
    destruct (c =? 34)%N.
    { destruct (@string_body_bounded (length r) r (le_n _)) as [H1 H2].
      destruct (string_body r) as [t r'| |]; [|stop|contradiction].
      split; [discriminate|]. intros ? ? [= _ <-].
      specialize (H2 _ _ eq_refl). simpl. lia. }
    destruct (c =? 116)%N; [apply keyword_shortens; discriminate|].
    destruct (c =? 102)%N; [apply keyword_shortens; discriminate|].
    destruct (c =? 110)%N; [apply keyword_shortens; discriminate|].
    destruct (number_shortens (c :: r)) as [H1 H2].
    destruct (number (c :: r)) as [t r'| |]; [|stop|contradiction].
    split; [discriminate|]. intros ? ? [= _ <-]. exact (H2 _ _ eq_refl).
  - (* elements *)
    cbn [elements].
    destruct (IHv s) as [H1 H2]; [lia|].
    destruct (value fuel s) as [v r| |]; [|stop|contradiction].
    specialize (H2 _ _ eq_refl).
    pose proof (skip_ws_length r) as Hr.
    destruct (skip_ws r) as [|c r']; [stop|]. simpl in Hr.
    destruct (c =? 44)%N.
    { pose proof (skip_ws_length r') as Hr'.
      destruct (IHe (skip_ws r')) as [H3 H4]; [lia|].
      destruct (elements fuel (skip_ws r')) as [vs r''| |];
        [|stop|contradiction].
      split; [discriminate|]. intros ? ? [= _ <-].
      specialize (H4 _ _ eq_refl). lia. }
    destruct (c =? 93)%N; [|stop].
    split; [discriminate|]. intros ? ? [= _ <-]. lia.
  - (* members *)
    cbn [members]. destruct s as [|c r]; [stop|]. simpl in Hs.
    destruct (c =? 34)%N; [|stop].
    destruct (@string_body_bounded (length r) r (le_n _)) as [_ H2].
    destruct (string_body r) as [k r1| |]; [|stop|stop].
    specialize (H2 _ _ eq_refl).
    pose proof (skip_ws_length r1) as Hr1.
    destruct (skip_ws r1) as [|c1 r2]; [stop|]. simpl in Hr1.
    destruct (c1 =? 58)%N; [|stop].
    pose proof (skip_ws_length r2) as Hr2.
    destruct (IHv (skip_ws r2)) as [H3 H4]; [lia|].
    destruct (value fuel (skip_ws r2)) as [v r3| |]; [|stop|contradiction].
    specialize (H4 _ _ eq_refl).
    pose proof (skip_ws_length r3) as Hr3.
    destruct (skip_ws r3) as [|c3 r4]; [stop|]. simpl in Hr3.
    destruct (c3 =? 44)%N.
    { pose proof (skip_ws_length r4) as Hr4.
      destruct (IHm (skip_ws r4)) as [H5 H6]; [lia|].
      destruct (members fuel (skip_ws r4)) as [ms r5| |];
        [|stop|contradiction].
      split; [discriminate|]. intros ? ? [= _ <-].
      specialize (H6 _ _ eq_refl). simpl. lia. }
    destruct (c3 =? 125)%N; [|stop].
    split; [discriminate|]. intros ? ? [= _ <-]. simpl. lia.
Qed.

(** [JSON_parse] is never short of fuel: [None] is a [SyntaxError]. *)
Lemma JSON_parse_fuel (s : text) :
  value (enough (skip_ws s)) (skip_ws s) <> Exhausted.
Proof.
  destruct (fuel_is_enough (enough (skip_ws s))) as [H _].
  apply H. unfold enough. lia.
Qed.

End ParserFacts.

(* ===================================================================== *)
(** * Instances                                                           *)
(* ===================================================================== *)

Lemma streamChat_concatenates_deltas_witness :
  snd (streamChat lexical (streaming hello_values)
         None (js "hi") (fresh_page []))
  = Returns (js "Hello").
Proof.
  change (js "Hello")
    with (assembled lexical hello_values).
  apply (@streamChat_concatenates_deltas lexical
           (streaming hello_values) None (js "hi") (fresh_page [])
           200%Z hello_values);
    [reflexivity | lia | vm_compute; reflexivity].
Defined.

(** C1, as stated, fails: a well-formed data line that follows a line
    which is not JSON is seen before the end of the stream, and its delta
    is not in the answer. *)
Lemma delta_after_malformed_line_is_dropped :
  snd (streamChat lexical (streaming stalled_values)
         None (js "hi") (fresh_page []))
  = Returns []
  /\ claimed_answer lexical stalled_values = js "A"
  /\ snd (streamChat lexical (streaming stalled_values)
            None (js "hi") (fresh_page []))
     <> Returns (claimed_answer lexical stalled_values).
Proof. repeat split; vm_compute; (reflexivity || discriminate). Qed.

(** C3, at the failing input: the terminator arrives in one chunk and a
    delta in the next; the delta is processed and returned. *)
Theorem lines_after_done_are_processed :
  snd (streamChat lexical (streaming late_values)
         None (js "hi") (fresh_page []))
  = Returns (js "X").
Proof. vm_compute. reflexivity. Qed.

(** The same lines in one chunk: the delta after the terminator is left
    in the buffer, and the answer depends on where the chunks are cut. *)
Example lines_after_done_in_one_chunk :
  snd (streamChat lexical (streaming [concat late_values])
         None (js "hi") (fresh_page []))
  = Returns [].
Proof. vm_compute. reflexivity. Qed.

Lemma malformed_line_is_pushed_back_witness :
  lines_loop lexical (streaming []) 13 (arriving (hd [] retry_values) (fresh_page []))
  = {| textBuffer := jsq "data: {oops" ++ [LF] ++ [];
       fullResponse := []; screen := fresh_page [] |}
  /\ read_loop lexical (streaming []) (tl retry_values)
       (lines_loop lexical (streaming []) 13
          (arriving (hd [] retry_values) (fresh_page [])))
     = {| textBuffer := jsq "data: {oops" ++ [LF] ++ []
                        ++ concat (tl retry_values);
          fullResponse := []; screen := fresh_page [] |}
  /\ decode_stream lexical (streaming [])
       {| chunks := [hd [] retry_values] ++ tl retry_values;
          read_failure := None |} (fresh_page [])
     = (fresh_page [], Returns []).
Proof.
  destruct (@malformed_line_is_pushed_back lexical (streaming []) 12
              (arriving (hd [] retry_values) (fresh_page [])) 11
              eq_refl eq_refl eq_refl eq_refl) as (H1 & H2 & H3).
  split; [exact H1|]. split; [exact (H2 (tl retry_values))|].
  exact (H3 [hd [] retry_values] (tl retry_values) (fresh_page []) eq_refl).
Defined.

(** C4, as stated, fails: the line that fails to parse is retried after
    the next read and fails again, and the well-formed data line that
    the next read delivers is never decoded; the stream returns the
    empty answer although a delta [A] arrived, with all the text still
    in the buffer. *)
Lemma retried_line_loses_later_data :
  classify lexical (jsq "data: {'choices':[{'delta':{'content':'A'}}]}")
  = Delta (Some (js "A"))
  /\ snd (streamChat lexical (streaming retry_values)
            None (js "hi") (fresh_page []))
     = Returns []
  /\ textBuffer (read_loop lexical (streaming retry_values) retry_values
                   (start_decoding (fresh_page [])))
     = concat retry_values.
Proof. repeat split; vm_compute; reflexivity. Qed.

(** C2, as stated, fails: a question of three spaces is not rejected; the
    relay calls the upstream provider and passes its answer on. *)
Lemma whitespace_question_reaches_upstream :
  JSON_parse (jsq "{'question':'   '}")
  = Some (JObj [(js "question", JStr (js "   "))])
  /\ trim (js "   ") = []
  /\ status (fst (serve lexical (relay_with upstream_ok)
                    (post (jsq "{'question':'   '}")))) = 200%Z
  /\ existsb is_gateway_call
       (snd (serve lexical (relay_with upstream_ok)
               (post (jsq "{'question':'   '}")))) = true.
Proof. repeat split; vm_compute; reflexivity. Qed.

Lemma missing_or_empty_question_is_rejected_witness :
  status (fst (serve lexical (relay_with upstream_ok)
                 (post (jsq "{'userId':'u1','question':''}")))) = 400%Z
  /\ body (fst (serve lexical (relay_with upstream_ok)
                  (post (jsq "{'userId':'u1','question':''}"))))
     = JsonBody (JObj [(js "error", JStr (js "Question is required"))])
  /\ snd (serve lexical (relay_with upstream_ok)
            (post (jsq "{'userId':'u1','question':''}"))) = [].
Proof.
  apply (@missing_or_empty_question_is_rejected lexical
           (relay_with upstream_ok) (post (jsq "{'userId':'u1','question':''}"))
           [(js "userId", JStr u1); (js "question", JStr [])]);
    [reflexivity | vm_compute; reflexivity | right; reflexivity].
Defined.

Lemma upstream_status_is_translated_witness :
  status (fst (serve lexical (relay_with upstream_down)
                 (post (jsq "{'question':'What is entropy?'}")))) = 500%Z
  /\ body (fst (serve lexical (relay_with upstream_down)
                  (post (jsq "{'question':'What is entropy?'}"))))
     = JsonBody (JObj [(js "error", JStr (js "AI service error"))])
  /\ filter is_error_log
       (snd (serve lexical (relay_with upstream_down)
               (post (jsq "{'question':'What is entropy?'}"))))
     = [LogGatewayError 503 (js "overloaded")].
Proof.
  refine (proj1 (proj1 (proj2 (proj2
    (@upstream_status_is_translated lexical
       (relay_with upstream_down) (post (jsq "{'question':'What is entropy?'}"))
       [(js "question", JStr (js "What is entropy?"))]
       (js "What is entropy?") (js "secret") upstream_down
       _ _ _ _ _ _ _ _))) _ _ _) (js "overloaded") _);
    try reflexivity; discriminate.
Defined.

(** C5, as stated, fails: the upstream answers 503 and its body cannot
    be read; the relay answers 500 with the message of the read failure
    instead of the service-error message, and what it logs is that
    failure, not the upstream status and body. *)
Lemma unreadable_upstream_body_is_not_translated :
  resp_status upstream_broken = 503%Z
  /\ resp_ok upstream_broken = false
  /\ status (fst (serve lexical (relay_with upstream_broken)
                    (post (jsq "{'question':'What is entropy?'}")))) = 500%Z
  /\ body (fst (serve lexical (relay_with upstream_broken)
                  (post (jsq "{'question':'What is entropy?'}"))))
     = JsonBody (JObj [(js "error", JStr (js "boom"))])
  /\ body (fst (serve lexical (relay_with upstream_broken)
                  (post (jsq "{'question':'What is entropy?'}"))))
     <> JsonBody (JObj [(js "error", JStr (js "AI service error"))])
  /\ filter is_error_log
       (snd (serve lexical (relay_with upstream_broken)
               (post (jsq "{'question':'What is entropy?'}"))))
     = [LogFailure (ErrorObject (js "boom"))].
Proof. repeat split; vm_compute; (reflexivity || discriminate). Qed.

(** C6, as stated, fails: in an anonymous session the answer carries a
    well-formed fenced block with topics A and B and summary S, and
    nothing is inserted. *)
Lemma anonymous_fenced_answer_is_not_persisted :
  snd (streamChat lexical (streaming fenced_values)
         None (js "hi") (sending (streaming fenced_values) (js "hi") (fresh_page [])))
  = Returns fenced_answer
  /\ fence_match fenced_answer = Some fenced_block
  /\ JSON_parse fenced_block
     = Some (JObj [(js "important_topics", JArr [JStr (js "A"); JStr (js "B")]);
                   (js "summary", JStr (js "S"))])
  /\ inserts (handleSend lexical (streaming fenced_values)
                None (Some (js "hi")) (fresh_page [])) = []
  /\ effects (handleSend lexical (streaming fenced_values)
                None (Some (js "hi")) (fresh_page []))
     = [Fetch (js "hi") None].
Proof. repeat split; vm_compute; reflexivity. Qed.

Lemma first_fenced_block_is_persisted_witness :
  exists pA pB : Z,
    inserts (handleSend lexical (streaming fenced_values)
               (Some u1) (Some (js "hi")) (fresh_page []))
    = inserts (fresh_page [])
      ++ [InsertTopic u1 General (JStr (js "A")) pA;
          InsertTopic u1 General (JStr (js "B")) pB;
          InsertAnswer u1 (js "hi") fenced_answer (JStr (js "S")) General]
    /\ pA = probability half /\ pB = probability half
    /\ (70 <= pA <= 99)%Z /\ (70 <= pB <= 99)%Z.
Proof.
  apply (@first_fenced_block_is_persisted lexical
           (streaming fenced_values) u1 (Some (js "hi")) (fresh_page [])
           (fst (streamChat lexical
                   (streaming fenced_values) (Some u1) (js "hi")
                   (sending (streaming fenced_values) (js "hi") (fresh_page []))))
           fenced_answer (js "Hi ") [LF] fenced_block [LF] []
           (JObj [(js "important_topics", JArr [JStr (js "A"); JStr (js "B")]);
                  (js "summary", JStr (js "S"))]));
    try (vm_compute; reflexivity); try discriminate.
Defined.

(** C7, as stated, fails: in an anonymous session the answer has no
    fenced block and is not persisted. *)
Lemma anonymous_plain_answer_is_not_persisted :
  snd (streamChat lexical (streaming plain_values)
         None (js "hi") (sending (streaming plain_values) (js "hi") (fresh_page [])))
  = Returns (js "Hello")
  /\ fence_match (js "Hello") = None
  /\ inserts (handleSend lexical (streaming plain_values)
                None (Some (js "hi")) (fresh_page [])) = []
  /\ effects (handleSend lexical (streaming plain_values)
                None (Some (js "hi")) (fresh_page []))
     = [Fetch (js "hi") None].
Proof. repeat split; vm_compute; reflexivity. Qed.

Lemma answer_without_block_is_persisted_witness :
  inserts (handleSend lexical (streaming plain_values)
             (Some u1) (Some (js "hi")) (fresh_page []))
  = inserts (fresh_page [])
    ++ [InsertAnswer u1 (js "hi") (js "Hello") (JStr []) General].
Proof.
  apply (@answer_without_block_is_persisted lexical
           (streaming plain_values) u1 (Some (js "hi")) (fresh_page [])
           (fst (streamChat lexical
                   (streaming plain_values) (Some u1) (js "hi")
                   (sending (streaming plain_values) (js "hi") (fresh_page []))))
           (js "Hello"));
    [discriminate | vm_compute; reflexivity | discriminate | left; reflexivity].
Defined.

Lemma no_insert_without_user_or_answer_witness :
  inserts (handleSend lexical (streaming fenced_values)
             None (Some (js "hi")) (fresh_page []))
  = inserts (fresh_page []).
Proof.
  apply (@no_insert_without_user_or_answer lexical
           (streaming fenced_values) None (Some (js "hi")) (fresh_page [])).
  left. reflexivity.
Defined.

Lemma handleSend_blank_input_is_noop_witness :
  handleSend lexical (streaming hello_values)
    (Some u1) None (fresh_page (js "   "))
  = fresh_page (js "   ").
Proof.
  apply (@handleSend_blank_input_is_noop lexical
           (streaming hello_values) (Some u1) (fresh_page (js "   "))).
  reflexivity.
Defined.

Lemma unfinished_line_is_dropped_witness :
  snd (decode_stream lexical (streaming [])
         {| chunks := plain_values ++ [partial_line]; read_failure := None |}
         (fresh_page []))
  = snd (decode_stream lexical (streaming [])
           {| chunks := plain_values; read_failure := None |} (fresh_page [])).
Proof.
  apply (@unfinished_line_is_dropped lexical (streaming [])
           plain_values partial_line (fresh_page []));
    vm_compute; reflexivity.
Defined.

Lemma malformed_line_blocks_the_stream_witness :
  snd (decode_stream lexical (streaming [])
         {| chunks := stalled_values ++ hello_values; read_failure := None |}
         (fresh_page []))
  = Returns (assembled lexical stalled_values).
Proof.
  apply (@malformed_line_blocks_the_stream lexical (streaming [])
           stalled_values hello_values (fresh_page []));
    vm_compute; reflexivity.
Defined.

Lemma crlf_decodes_as_lf_witness :
  snd (decode_stream lexical (streaming [])
         {| chunks := [event_stream [CR; LF] hello_lines]; read_failure := None |}
         (fresh_page []))
  = snd (decode_stream lexical (streaming [])
           {| chunks := [event_stream [LF] hello_lines]; read_failure := None |}
           (fresh_page [])).
Proof.
  apply (@crlf_decodes_as_lf lexical (streaming []) hello_lines (fresh_page [])).
  vm_compute. reflexivity.
Defined.

Lemma skipped_lines_do_not_count_witness :
  snd (decode_stream lexical (streaming [])
         {| chunks := [event_stream [LF]
                         (firstn 2 hello_lines ++ js ": keep-alive"
                            :: skipn 2 hello_lines)];
            read_failure := None |} (fresh_page []))
  = snd (decode_stream lexical (streaming [])
           {| chunks := [event_stream [LF]
                           (firstn 2 hello_lines ++ skipn 2 hello_lines)];
              read_failure := None |} (fresh_page [])).
Proof.
  apply (@skipped_lines_do_not_count lexical (streaming [])
           (firstn 2 hello_lines) (skipn 2 hello_lines) (js ": keep-alive")
           (fresh_page []));
    [vm_compute; reflexivity | left; reflexivity].
Defined.

Lemma terminator_ends_the_chunk_witness :
  snd (decode_stream lexical (streaming [])
         {| chunks := [event_stream [LF]
                         (firstn 1 hello_lines ++ js "data: [DONE]"
                            :: skipn 1 hello_lines)];
            read_failure := None |} (fresh_page []))
  = snd (decode_stream lexical (streaming [])
           {| chunks := [event_stream [LF] (firstn 1 hello_lines)];
              read_failure := None |} (fresh_page [])).
Proof.
  apply (@terminator_ends_the_chunk lexical (streaming [])
           (firstn 1 hello_lines) (skipn 1 hello_lines) (fresh_page [])).
  vm_compute. reflexivity.
Defined.

Lemma chunk_cuts_do_not_matter_witness :
  snd (decode_stream lexical (streaming [])
         {| chunks := hello_values; read_failure := None |} (fresh_page []))
  = snd (decode_stream lexical (streaming [])
           {| chunks := [concat hello_values]; read_failure := None |}
           (fresh_page [])).
Proof.
  apply (@chunk_cuts_do_not_matter lexical (streaming [])
           hello_values [concat hello_values] (fresh_page []));
    vm_compute; reflexivity.
Defined.

Lemma answer_is_one_message_witness :
  let asked := new_message (streaming plain_values) 0 user_role (js "hi") in
  (messages (handleSend lexical (streaming plain_values)
               (Some u1) (Some (js "hi")) (fresh_page []))
   = [welcome] ++ [asked]
   /\ js "Hello" = [])
  \/ exists m,
       messages (handleSend lexical (streaming plain_values)
                   (Some u1) (Some (js "hi")) (fresh_page []))
       = [welcome] ++ [asked; m]
       /\ msg_content m = js "Hello"
       /\ msg_role m = assistant_role.
Proof.
  apply (@answer_is_one_message lexical (streaming plain_values)
           (Some u1) (Some (js "hi")) (fresh_page [])
           (fst (streamChat lexical (streaming plain_values) (Some u1) (js "hi")
                   (sending (streaming plain_values) (js "hi") (fresh_page []))))
           (js "Hello"));
    [intros n; reflexivity | discriminate | vm_compute; reflexivity].
Defined.

Lemma refused_request_is_apologised_witness :
  exists message,
    In message [ js "Rate limit exceeded. Please try again in a moment.";
                 js "AI credits exhausted. Please contact support.";
                 js "Failed to get AI response" ]
    /\ handleSend lexical (refusing 429) (Some u1) (Some (js "hi")) (fresh_page [])
       = {| messages :=
              [welcome]
              ++ [ new_message (refusing 429) 0 user_role (js "hi");
                   new_message (refusing 429) 1 assistant_role apology ];
            input := [];
            isLoading := false;
            draws := 2;
            effects :=
              [] ++ [ Fetch (js "hi") (Some u1);
                      ConsoleError (ErrorObject message);
                      Toast (js "Error") message ] |}.
Proof.
  apply (@refused_request_is_apologised lexical (refusing 429)
           (Some u1) (Some (js "hi")) (fresh_page [])
           {| resp_status := 429; resp_body := None |});
    [discriminate | reflexivity | left; reflexivity].
Defined.

Lemma failure_stores_nothing_witness :
  inserts (handleSend lexical (breaking plain_values)
             (Some u1) (Some (js "hi")) (fresh_page []))
  = inserts (fresh_page [])
  /\ (exists message,
        effects (handleSend lexical (breaking plain_values)
                   (Some u1) (Some (js "hi")) (fresh_page []))
        = [] ++ [ Fetch (js "hi") (Some u1);
                  ConsoleError OtherValue;
                  Toast (js "Error") message ])
  /\ exists m,
       messages (handleSend lexical (breaking plain_values)
                   (Some u1) (Some (js "hi")) (fresh_page []))
       = messages (fst (streamChat lexical (breaking plain_values)
                          (Some u1) (js "hi")
                          (sending (breaking plain_values) (js "hi")
                             (fresh_page []))))
         ++ [m]
       /\ msg_content m = apology
       /\ msg_role m = assistant_role.
Proof.
  apply (@failure_stores_nothing lexical (breaking plain_values)
           (Some u1) (Some (js "hi")) (fresh_page [])
           (fst (streamChat lexical (breaking plain_values) (Some u1) (js "hi")
                   (sending (breaking plain_values) (js "hi") (fresh_page []))))
           OtherValue);
    [discriminate | vm_compute; reflexivity].
Defined.

Lemma one_request_per_question_witness :
  filter is_fetch (effects (handleSend lexical (streaming fenced_values)
                              (Some u1) None (fresh_page (js "  hi "))))
  = filter is_fetch (effects (fresh_page (js "  hi ")))
    ++ [Fetch (js "hi") (Some u1)]
  /\ input (handleSend lexical (streaming fenced_values)
              (Some u1) None (fresh_page (js "  hi "))) = []
  /\ isLoading (handleSend lexical (streaming fenced_values)
                  (Some u1) None (fresh_page (js "  hi "))) = false.
Proof.
  apply (@one_request_per_question lexical (streaming fenced_values)
           (Some u1) None (fresh_page (js "  hi "))).
  vm_compute. discriminate.
Defined.

Lemma captured_block_is_fenced_witness :
  exists pre gap1 gap2 post,
    fenced_answer
    = pre ++ fence_open ++ gap1 ++ fenced_block ++ gap2 ++ fence_close ++ post
    /\ all_ws gap1 = true /\ all_ws gap2 = true.
Proof.
  apply (@captured_block_is_fenced fenced_answer fenced_block).
  vm_compute. reflexivity.
Defined.

Lemma every_topic_is_stored_witness :
  exists summary : json,
    effects (persist lexical (streaming []) u1 (js "hi") fenced_answer
               (fresh_page []))
    = [] ++ topic_records u1 [JStr (js "A"); JStr (js "B")]
              [probability half; probability half]
      ++ [InsertAnswer u1 (js "hi") fenced_answer summary General]
    /\ Forall (fun z => 70 <= z <= 99)%Z [probability half; probability half]
    /\ draws (persist lexical (streaming []) u1 (js "hi") fenced_answer
                (fresh_page [])) = 0 + 2
    /\ ((truthy lexical (Some (JStr (js "S"))) = true
         /\ Some (JStr (js "S")) = Some summary)
        \/ (truthy lexical (Some (JStr (js "S"))) = false
            /\ summary = JStr [])).
Proof.
  apply (@every_topic_is_stored lexical (streaming [])
           u1 (js "hi") fenced_answer fenced_block
           (JObj [(js "important_topics", JArr [JStr (js "A"); JStr (js "B")]);
                  (js "summary", JStr (js "S"))])
           [JStr (js "A"); JStr (js "B")] (fresh_page []));
    [intros n; reflexivity
    | vm_compute; reflexivity | vm_compute; reflexivity | reflexivity].
Defined.

Lemma topics_must_be_an_array_witness :
  exists summary,
    inserts (persist lexical (streaming []) u1 (js "hi") untyped_answer
               (fresh_page []))
    = inserts (fresh_page [])
      ++ [InsertAnswer u1 (js "hi") untyped_answer summary General]
    /\ draws (persist lexical (streaming []) u1 (js "hi") untyped_answer
                (fresh_page [])) = 0.
Proof.
  apply (@topics_must_be_an_array lexical (streaming [])
           u1 (js "hi") untyped_answer untyped_block
           (JObj [(js "important_topics", JStr (js "A"));
                  (js "summary", JStr (js "S"))])
           (fresh_page []));
    vm_compute; reflexivity.
Defined.

Lemma missing_key_is_reported_witness :
  status (fst (serve lexical relay_without_key
                 (post (jsq "{'question':'What is entropy?'}")))) = 500%Z
  /\ body (fst (serve lexical relay_without_key
                  (post (jsq "{'question':'What is entropy?'}"))))
     = JsonBody (JObj [(js "error",
          JStr (js "LOVABLE_API_KEY is not configured"))])
  /\ header (js "Content-Type")
       (headers (fst (serve lexical relay_without_key
                        (post (jsq "{'question':'What is entropy?'}")))))
     = Some (js "application/json")
  /\ snd (serve lexical relay_without_key
            (post (jsq "{'question':'What is entropy?'}")))
     = [LogFailure (ErrorObject (js "LOVABLE_API_KEY is not configured"))].
Proof.
  apply (@missing_key_is_reported lexical relay_without_key
           (post (jsq "{'question':'What is entropy?'}"))
           (JObj [(js "question", JStr (js "What is entropy?"))]));
    [discriminate | vm_compute; reflexivity | reflexivity | left; reflexivity].
Defined.

Lemma unreadable_body_is_a_500_witness :
  exists message,
    status (fst (serve lexical (relay_with upstream_ok)
                   (post (js "question=entropy")))) = 500%Z
    /\ body (fst (serve lexical (relay_with upstream_ok)
                    (post (js "question=entropy"))))
       = JsonBody (JObj [(js "error", JStr message)])
    /\ header (js "Content-Type")
         (headers (fst (serve lexical (relay_with upstream_ok)
                          (post (js "question=entropy")))))
       = Some (js "application/json")
    /\ snd (serve lexical (relay_with upstream_ok)
              (post (js "question=entropy")))
       = [LogFailure (ErrorObject message)].
Proof.
  apply (@unreadable_body_is_a_500 lexical (relay_with upstream_ok)
           (post (js "question=entropy")));
    [discriminate | left; vm_compute; reflexivity].
Defined.

Lemma gateway_call_carries_the_question_witness :
  exists prompt rest,
    snd (serve lexical (relay_with upstream_ok)
           (post (jsq "{'question':'What is entropy?','userId':'u1'}")))
    = selects lexical (Some (JStr u1))
      ++ GatewayCall {| authorization := js "Bearer " ++ js "secret";
                        model := js "google/gemini-2.5-flash";
                        system_content := prompt;
                        user_content := Some (JStr (js "What is entropy?"));
                        stream := true |}
         :: rest
    /\ filter is_gateway_call rest = []
    /\ filter is_select rest = [].
Proof.
  apply (@gateway_call_carries_the_question lexical (relay_with upstream_ok)
           (post (jsq "{'question':'What is entropy?','userId':'u1'}"))
           (JObj [(js "question", JStr (js "What is entropy?"));
                  (js "userId", JStr u1)])
           (js "secret"));
    [discriminate | vm_compute; reflexivity | reflexivity | reflexivity
    | discriminate | reflexivity].
Defined.

Lemma relay_error_is_apologised_witness :
  handleSend lexical (refusing 400) (Some u1) (Some (js "hi")) (fresh_page [])
  = {| messages :=
         [welcome]
         ++ [ new_message (refusing 400) 0 user_role (js "hi");
              new_message (refusing 400) 1 assistant_role apology ];
       input := [];
       isLoading := false;
       draws := 2;
       effects :=
         [] ++ [ Fetch (js "hi") (Some u1);
                 ConsoleError (ErrorObject (js "Failed to get AI response"));
                 Toast (js "Error") (js "Failed to get AI response") ] |}.
Proof.
  apply (@relay_error_is_apologised lexical (refusing 400)
           (relay_with upstream_ok)
           (post (jsq "{'userId':'u1','question':''}"))
           (Some u1) (Some (js "hi")) (fresh_page [])
           {| resp_status := 400; resp_body := None |});
    [discriminate | reflexivity | vm_compute; reflexivity
    | vm_compute; discriminate].
Defined.

Lemma years_are_listed_once_witness :
  exists (ctx : text * text) (log : list relay_effect) (years : list text),
    contexts lexical relay_with_papers (Some (JStr u1)) = (Returns ctx, log)
    /\ snd ctx
       = js "User has uploaded " ++ nat_to_text 3
         ++ js " past paper(s) from years: " ++ join (js ", ") years
    /\ NoDup years
    /\ (forall y, In y years <-> In y [js "2021"; js "2022"; js "2021"]).
Proof.
  apply (@years_are_listed_once lexical relay_with_papers (JStr u1)
           [ {| year := js "2021"; subject := js "Signals" |};
             {| year := js "2022"; subject := js "Signals" |};
             {| year := js "2021"; subject := js "Control" |} ]);
    [reflexivity | reflexivity | discriminate].
Defined.

(** The likelihood the page computes for the random number 0.7, whose
    product with 30 rounds up to 21. *)
Example probability_rounds_the_product :
  probability (S754_finite false 6305039478318694 (-53)) = 91%Z.
Proof. vm_compute. reflexivity. Qed.
